(** * WaveGrad data pipeline: [data.py]

    A shallow embedding of [AudioDataset] and [MelSpectrogramFixed] from
    [src/data.py], with the properties of the segment sampler and of the
    mel feature extractor stated over it.

    Conventions.
    - Python integers are [Z]; [//] is [Z.div] (both round towards minus
      infinity) with the division by zero written out as an exception.
    - A raised exception is a value of [result]; methods that consult the
      global NumPy generator run in the monad [M], which threads the
      generator state.
    - The dataset code is polymorphic in the sample type.  The spectral
      code is embedded over [R] for finite values (arithmetic exact), and
      a second time, in [Float], over floating-point values with [nan]
      and the infinities; the two agree on finite values. *)

From Stdlib Require Import ZArith List Bool Lia String Reals Lra Permutation.
Import ListNotations.

Set Implicit Arguments.
Open Scope Z_scope.

(** ** Exceptions and results *)

Inductive exn : Type :=
| AssertionError
| IndexError
| ValueError
| ZeroDivisionError
| RuntimeError
| FileError.

Inductive result (X : Type) : Type :=
| Ok (x : X)
| Raise (e : exn).

Arguments Ok {X} x.
Arguments Raise {X} e.

(** ** The global random generator

    [np.random] is a hidden global generator.  Its state is a tape of raw
    draws and a read position; every primitive reduces raw draws into the
    range it was asked for. *)

Record rng : Type := mkRng { tape : nat -> Z; pos : nat }.

Definition next_raw (g : rng) : Z * rng :=
  (tape g (pos g), mkRng (tape g) (S (pos g))).

(** A generator whose every raw draw is [r]. *)
Definition const_rng (r : Z) : rng := mkRng (fun _ => r) 0.

(** ** The monad of methods: generator state plus exceptions *)

Definition M (X : Type) : Type := rng -> result X * rng.

Definition ret {X} (x : X) : M X := fun g => (Ok x, g).

Definition raise {X} (e : exn) : M X := fun g => (Raise e, g).

Definition bind {X Y} (m : M X) (k : X -> M Y) : M Y :=
  fun g =>
    match m g with
    | (Ok x, g') => k x g'
    | (Raise e, g') => (Raise e, g')
    end.

Definition lift {X} (r : result X) : M X := fun g => (r, g).

Declare Scope py_scope.
Delimit Scope py_scope with py.
Notation "x <- m ;; k" := (bind m (fun x => k))
  (at level 100, m at next level, right associativity) : py_scope.
Notation "'assert!' b ;; k" := (if b then k else raise AssertionError)
  (at level 100, b at next level, right associativity) : py_scope.
Open Scope py_scope.

Fixpoint mapM {X Y} (f : X -> M Y) (l : list X) : M (list Y) :=
  match l with
  | [] => ret []
  | x :: l' => y <- f x ;; ys <- mapM f l' ;; ret (y :: ys)
  end.

(** ** NumPy primitives *)

(** [np.random.randint(low, high)]: an integer of the half-open range
    [low <= v < high]; [ValueError] when the range is empty.  A range of
    a single value is answered without consulting the generator.  How
    many machine words the generator spends on one bounded draw is not
    modelled: a raw draw stands for the accepted one. *)
Definition randint (low high : Z) : M Z :=
  fun g =>
    if high <=? low then (Raise ValueError, g)
    else if high - low =? 1 then (Ok low, g)
    else let (r, g') := next_raw g in (Ok (low + r mod (high - low)), g').

(** Removal of the [n]-th element of a pool. *)
Fixpoint remove_nth {X} (n : nat) (l : list X) : list X :=
  match l, n with
  | [], _ => []
  | _ :: l', O => l'
  | x :: l', S n' => x :: remove_nth n' l'
  end.

(** [k] successive draws without replacement from [pool]. *)
Fixpoint draw_distinct (k : nat) (pool : list Z) : M (list Z) :=
  match k with
  | O => ret []
  | S k' =>
      j <- randint 0 (Z.of_nat (List.length pool)) ;;
      rest <- draw_distinct k' (remove_nth (Z.to_nat j) pool) ;;
      ret (nth (Z.to_nat j) pool 0 :: rest)
  end.

(** [range(n)] as a list. *)
Definition range (n : Z) : list Z := map Z.of_nat (seq 0 (Z.to_nat n)).

(** [np.random.permutation(n)]: the whole of [range(n)] in a random
    order. *)
Definition permutation (n : Z) : M (list Z) :=
  draw_distinct (Z.to_nat n) (range n).

(** [np.random.choice(range(n), size=size, replace=False)]: the first
    [size] entries of a random permutation of the whole population (the
    population is shuffled whatever the size asked for); [ValueError] for
    a negative size and for a size above the population. *)
Definition choice_no_replace (n size : Z) : M (list Z) :=
  if size <? 0 then raise ValueError
  else if Z.max 0 n <? size then raise ValueError
  else perm <- permutation n ;; ret (firstn (Z.to_nat size) perm).

(** ** Python sequences *)

Definition len {X} (l : list X) : Z := Z.of_nat (List.length l).

(** [l[i]] with negative indices counted from the end. *)
Definition getitem_list {X} (l : list X) (i : Z) : result X :=
  let j := if i <? 0 then i + len l else i in
  if (j <? 0) || (len l <=? j) then Raise IndexError
  else match nth_error l (Z.to_nat j) with
       | Some x => Ok x
       | None => Raise IndexError
       end.

(** Normalisation of one slice bound against a length. *)
Definition slice_bound (n i : Z) : Z :=
  let j := if i <? 0 then i + n else i in
  Z.max 0 (Z.min n j).

(** [l[start:stop]]. *)
Definition slice {X} (l : list X) (start stop : Z) : list X :=
  let a := slice_bound (len l) start in
  let b := slice_bound (len l) stop in
  firstn (Z.to_nat (b - a)) (skipn (Z.to_nat a) l).

(** ** Tensors

    [torchaudio.load] yields a tensor of shape [[channels, time]]; the
    samples of a mono file form its single row.  After [squeeze] the
    tensor has rank one, or rank zero when the row held exactly one
    sample. *)

Section Tensor.
Variable sample : Type.
Variable zero : sample.

Inductive tensor : Type :=
| Scalar (x : sample)
| Vector (v : list sample).

(** All the samples of a tensor, in order. *)
Definition samples (t : tensor) : list sample :=
  match t with
  | Scalar x => [x]
  | Vector v => v
  end.

(** [t.squeeze()] of a tensor of shape [[1, len row]]. *)
Definition squeeze (row : list sample) : tensor :=
  match row with
  | [x] => Scalar x
  | _ => Vector row
  end.

(** [t.shape[-1]]: an empty shape has no last entry. *)
Definition shape_last (t : tensor) : result Z :=
  match t with
  | Scalar _ => Raise IndexError
  | Vector v => Ok (len v)
  end.

(** [torch.nn.functional.pad(t, (0, p), mode="constant")] along the
    last dimension: [p] zeros are appended; a negative [p] crops, and
    fails when nothing would be left. *)
Definition pad_right (row : list sample) (p : Z) : result (list sample) :=
  if 0 <=? p then Ok (row ++ repeat zero (Z.to_nat p))
  else if 0 <=? len row + p then Ok (firstn (Z.to_nat (len row + p)) row)
  else Raise RuntimeError.

Definition pad_tensor (t : tensor) (p : Z) : result tensor :=
  match t with
  | Scalar _ => Raise RuntimeError
  | Vector v =>
      match pad_right v p with
      | Ok v' => Ok (Vector v')
      | Raise e => Raise e
      end
  end.

(** [t[start:stop]] on the first dimension. *)
Definition slice_tensor (t : tensor) (start stop : Z) : result tensor :=
  match t with
  | Scalar _ => Raise IndexError
  | Vector v => Ok (Vector (slice v start stop))
  end.

(** ** [AudioDataset] *)

(** The files behind the paths: [torchaudio.load] gives the samples of
    a mono file and its sample rate. *)
Variable torchaudio_load : string -> result (list sample * Z).

(** [segment_length] is set by [__init__] in training mode only, and
    only read in training mode. *)
Record AudioDataset : Type := mkAudioDataset {
  hop_length : Z;
  training : bool;
  segment_length : Z;
  sample_rate : Z;
  audio_paths : list string
}.

Definition floordiv (a b : Z) : result Z :=
  if b =? 0 then Raise ZeroDivisionError else Ok (a / b).

Definition load_audio_to_torch (self : AudioDataset) (audio_path : string)
  : M (tensor * Z) :=
  loaded <- lift (torchaudio_load audio_path) ;;
  let (audio, sr) := loaded in
  if negb (training self) then
    q <- lift (floordiv (len audio) (hop_length self)) ;;
    let p := (q + 1) * hop_length self - len audio in
    audio' <- lift (pad_right audio p) ;;
    ret (squeeze audio', sr)
  else ret (squeeze audio, sr).

Definition getitem (self : AudioDataset) (index : Z) : M tensor :=
  audio_path <- lift (getitem_list (audio_paths self) index) ;;
  loaded <- load_audio_to_torch self audio_path ;;
  let (audio, sr) := loaded in
  assert! (sr =? sample_rate self) ;;
  if negb (training self) then ret audio
  else
    n <- lift (shape_last audio) ;;
    if segment_length self <? n then
      let max_audio_start := n - segment_length self in
      audio_start <- randint 0 max_audio_start ;;
      lift (slice_tensor audio audio_start
              (audio_start + segment_length self))
    else
      lift (pad_tensor audio (segment_length self - n)).

Definition dataset_len (self : AudioDataset) : Z := len (audio_paths self).

Definition sample_test_batch (self : AudioDataset) (size : Z)
  : M (list tensor) :=
  idx <- choice_no_replace (dataset_len self) size ;;
  mapM (getitem self) idx.

End Tensor.

Arguments Scalar {sample} x.
Arguments Vector {sample} v.

(** ** [MelSpectrogramFixed] *)

(** A matrix is the list of its rows; a spectrogram of shape
    [[bins, frames]] has one row per bin and one column per frame. *)
Definition matrix : Type := list (list R).

Definition log10 (x : R) : R := (ln x / ln 10)%R.

Definition dot (u v : list R) : R :=
  fold_right Rplus 0%R (map (fun ab => (fst ab * snd ab)%R) (combine u v)).

Definition ncols (m : matrix) : nat :=
  match m with
  | [] => O
  | row :: _ => List.length row
  end.

Definition column (m : matrix) (t : nat) : list R :=
  map (fun row => nth t row 0%R) m.

(** [a @ b]; the inner dimensions must agree. *)
Definition matmul (a b : matrix) : result matrix :=
  if forallb (fun row => Nat.eqb (List.length row) (List.length b)) a
  then Ok (map (fun arow =>
                  map (fun t => dot arow (column b t)) (seq 0 (ncols b))) a)
  else Raise RuntimeError.

Definition tensor_abs (m : matrix) : matrix := map (map Rabs) m.

Definition clamp_min (m : matrix) (lo : R) : matrix :=
  map (map (fun x => Rmax x lo)) m.

Definition tensor_log10 (m : matrix) : matrix := map (map log10) m.

(** [m[..., :-1]]: the slice [:-1] along the last dimension. *)
Definition drop_last_frame (m : matrix) : matrix :=
  map (fun row => slice row 0 (-1)) m.

Section Mel.
(** [torchaudio.transforms.Spectrogram(n_fft, win_length, hop_length,
    pad=0, window_fn=hann_window, power=1, normalized=False)] applied
    to a waveform: the magnitude spectrogram, [[bins, frames]]. *)
Variable Spectrogram :
  Z -> option Z -> option Z -> tensor R -> result matrix.

(** [librosa.filters.mel(sample_rate, n_fft, n_mels, f_min, f_max)]. *)
Variable librosa_filters_mel : Z -> Z -> Z -> R -> R -> matrix.

Record MelSpectrogramFixed : Type := mkMelSpectrogramFixed {
  eps : R;
  n_fft : Z;
  win_length : option Z;
  stft_hop_length : option Z;
  mel_basis : matrix
}.

Definition default {X} (o : option X) (d : X) : X :=
  match o with Some x => x | None => d end.

(** [__init__]; an absent keyword argument is [None] and takes the
    default of the signature. *)
Definition MelSpectrogramFixed_init (sample_rate : Z)
    (n_fft win_length hop_length : option Z) (f_min f_max : option R)
    (n_mels : option Z) (eps : option R) : MelSpectrogramFixed :=
  let n_fft := default n_fft 400 in
  let n_mels := default n_mels 128 in
  let f_min := default f_min 0%R in
  let f_max := default f_max (IZR sample_rate / 2)%R in
  mkMelSpectrogramFixed
    (default eps (1 / 10 ^ 10)%R) n_fft win_length hop_length
    (librosa_filters_mel sample_rate n_fft n_mels f_min f_max).

(** The hop the transform works with: [hop_length], or half the window
    when it is [None]; the window is [n_fft] long when [win_length] is
    [None]. *)
Definition effective_hop (self : MelSpectrogramFixed) : Z :=
  default (stft_hop_length self) (default (win_length self) (n_fft self) / 2).

Definition spectrogram (self : MelSpectrogramFixed) (audio : tensor R)
  : result matrix :=
  Spectrogram (n_fft self) (win_length self) (stft_hop_length self) audio.

Definition forward (self : MelSpectrogramFixed) (audio : tensor R)
    (remove_last : option bool) : M matrix :=
  let remove_last := default remove_last true in
  x_stft <- lift (spectrogram self audio) ;;
  let spc := tensor_abs x_stft in
  prod <- lift (matmul (mel_basis self) spc) ;;
  let mel := tensor_log10 (clamp_min prod (eps self)) in
  ret (if remove_last then drop_last_frame mel else mel).

End Mel.

(** ** [MelSpectrogramFixed] on floating-point values

    The definitions above compute with real numbers: they describe
    [forward] on finite values.  A floating-point tensor can also hold
    [nan] and the two infinities, which [clamp_min] and [log10] treat in
    their own way.  [Float] embeds [forward] a second time over such
    values; finite arithmetic stays exact (no rounding, no overflow), and
    the filterbank and [eps] are finite, as [librosa] and the
    configuration give them. *)

Module Float.

Inductive fval : Type :=
| NaN
| NegInf
| Fin (r : R)
| PosInf.

(** [r * inf]: the sign of [r] decides, and [0 * inf] is [nan]. *)
Definition scaled_inf (r : R) : fval :=
  if Rlt_dec 0 r then PosInf else if Rlt_dec r 0 then NegInf else NaN.

Definition fabs (x : fval) : fval :=
  match x with
  | NaN => NaN
  | NegInf => PosInf
  | Fin r => Fin (Rabs r)
  | PosInf => PosInf
  end.

Definition fadd (x y : fval) : fval :=
  match x, y with
  | NaN, _ | _, NaN => NaN
  | Fin a, Fin b => Fin (a + b)
  | PosInf, NegInf | NegInf, PosInf => NaN
  | PosInf, _ | _, PosInf => PosInf
  | NegInf, _ | _, NegInf => NegInf
  end.

Definition fmul (x y : fval) : fval :=
  match x, y with
  | NaN, _ | _, NaN => NaN
  | Fin a, Fin b => Fin (a * b)
  | Fin a, PosInf | PosInf, Fin a => scaled_inf a
  | Fin a, NegInf | NegInf, Fin a => scaled_inf (- a)
  | PosInf, PosInf | NegInf, NegInf => PosInf
  | PosInf, NegInf | NegInf, PosInf => NegInf
  end.

(** [x.clamp_min(lo)]: the larger of [x] and [lo]; [nan] stays [nan]. *)
Definition fclamp_min (x : fval) (lo : R) : fval :=
  match x with
  | NaN => NaN
  | NegInf => Fin lo
  | Fin r => Fin (Rmax r lo)
  | PosInf => PosInf
  end.

(** [torch.log10]: minus infinity at zero, [nan] below it. *)
Definition flog10 (x : fval) : fval :=
  match x with
  | NaN => NaN
  | NegInf => NaN
  | Fin r =>
      if Rlt_dec 0 r then Fin (log10 r)
      else if Rlt_dec r 0 then NaN else NegInf
  | PosInf => PosInf
  end.

(** [x <= y] on floating-point values: false as soon as one is [nan]. *)
Definition fle (x y : fval) : Prop :=
  match x, y with
  | NaN, _ | _, NaN => False
  | NegInf, _ => True
  | _, PosInf => True
  | Fin a, Fin b => (a <= b)%R
  | _, _ => False
  end.

Definition fmatrix : Type := list (list fval).

(** The finite matrix with the entries of a real one. *)
Definition finite (m : matrix) : fmatrix := map (map Fin) m.

Definition dot (u : list R) (v : list fval) : fval :=
  fold_right fadd (Fin 0)
    (map (fun ab => fmul (Fin (fst ab)) (snd ab)) (combine u v)).

Definition ncols (m : fmatrix) : nat :=
  match m with
  | [] => O
  | row :: _ => List.length row
  end.

Definition column (m : fmatrix) (t : nat) : list fval :=
  map (fun row => nth t row (Fin 0)) m.

Definition matmul (a : matrix) (b : fmatrix) : result fmatrix :=
  if forallb (fun row => Nat.eqb (List.length row) (List.length b)) a
  then Ok (map (fun arow =>
                  map (fun t => dot arow (column b t)) (seq 0 (ncols b))) a)
  else Raise RuntimeError.

Definition tensor_abs (m : fmatrix) : fmatrix := map (map fabs) m.

Definition clamp_min (m : fmatrix) (lo : R) : fmatrix :=
  map (map (fun x => fclamp_min x lo)) m.

Definition tensor_log10 (m : fmatrix) : fmatrix := map (map flog10) m.

Definition drop_last_frame (m : fmatrix) : fmatrix :=
  map (fun row => slice row 0 (-1)) m.

Section Forward.
Variable Spectrogram :
  Z -> option Z -> option Z -> tensor fval -> result fmatrix.

Definition spectrogram (self : MelSpectrogramFixed) (audio : tensor fval)
  : result fmatrix :=
  Spectrogram (n_fft self) (win_length self) (stft_hop_length self) audio.

Definition forward (self : MelSpectrogramFixed) (audio : tensor fval)
    (remove_last : option bool) : M fmatrix :=
  let remove_last := default remove_last true in
  x_stft <- lift (spectrogram self audio) ;;
  let spc := tensor_abs x_stft in
  prod <- lift (matmul (mel_basis self) spc) ;;
  let mel := tensor_log10 (clamp_min prod (eps self)) in
  ret (if remove_last then drop_last_frame mel else mel).

End Forward.

End Float.

(** ** The alignment rule in the words of the specification *)

(** The smallest multiple of [hop] that is at least [n]. *)
Definition ceil_multiple (n hop : Z) : Z := ((n + hop - 1) / hop) * hop.

(** "The smallest multiple of [hop_length] that is >= L, plus one
    additional [hop_length]". *)
Definition spec_aligned_length (n hop : Z) : Z := ceil_multiple n hop + hop.

(** ** Example inputs *)

Definition demo_files (path : string) : result (list Z * Z) :=
  if String.eqb path "five.wav" then Ok ([1; 2; 3; 4; 5], 22050)
  else if String.eqb path "eight.wav" then Ok ([1; 2; 3; 4; 5; 6; 7; 8], 22050)
  else if String.eqb path "one.wav" then Ok ([7], 22050)
  else if String.eqb path "rate.wav" then Ok ([1; 2; 3], 16000)
  else Raise FileError.

Definition demo_train : AudioDataset :=
  mkAudioDataset 4 true 3 22050 ["five.wav"; "eight.wav"; "one.wav"; "rate.wav"]%string.

Definition demo_train_long : AudioDataset :=
  mkAudioDataset 4 true 8 22050 ["five.wav"]%string.

Definition demo_eval : AudioDataset :=
  mkAudioDataset 4 false 0 22050 ["five.wav"; "eight.wav"]%string.

Definition demo_eval_zero_hop : AudioDataset :=
  mkAudioDataset 0 false 0 22050 ["rate.wav"]%string.

(** A filterbank built for three bins, against the two of [demo_mel]. *)
Definition demo_mel_three_bins : MelSpectrogramFixed :=
  mkMelSpectrogramFixed (1 / 10 ^ 10)%R 2 None (Some 4)
    [[1; 0; 0]; [1 / 2; 1 / 4; 1 / 4]]%R.

(** A stand-in for the spectral transform with the frame layout of the
    centred short-time transform: [n_fft // 2 + 1] bins, and one frame per
    hop plus one; every bin of a frame holds the magnitude of the sample
    the frame starts at.  Waveforms of rank zero are refused. *)
Definition demo_Spectrogram (n_fft : Z) (win_length hop_length : option Z)
    (audio : tensor R) : result matrix :=
  match audio with
  | Scalar _ => Raise RuntimeError
  | Vector v =>
      let hop := default hop_length (default win_length n_fft / 2) in
      if hop <=? 0 then Raise RuntimeError
      else
        let frame t := Rabs (nth (Z.to_nat (t * hop)) v 0%R) in
        Ok (repeat (map frame (range (len v / hop + 1)))
                   (Z.to_nat (n_fft / 2 + 1)))
  end.

Definition demo_wave_files (path : string) : result (list R * Z) :=
  if String.eqb path "five.wav" then Ok ([1; 2; 3; 4; 5]%R, 22050)
  else Raise FileError.

Definition demo_mel : MelSpectrogramFixed :=
  mkMelSpectrogramFixed (1 / 10 ^ 10)%R 2 None (Some 4)
    [[1; 0]; [1 / 2; 1 / 2]]%R.

Definition demo_aligned : tensor R :=
  Vector [1; 2; 3; 4; 5; 0; 0; 0]%R.

(** The stand-in transform on floating-point values: the magnitude of
    a [nan] sample is [nan]. *)
Definition demo_Spectrogram_float (n_fft : Z) (win_length hop_length : option Z)
    (audio : tensor Float.fval) : result Float.fmatrix :=
  match audio with
  | Scalar _ => Raise RuntimeError
  | Vector v =>
      let hop := default hop_length (default win_length n_fft / 2) in
      if hop <=? 0 then Raise RuntimeError
      else
        let frame t :=
          Float.fabs (nth (Z.to_nat (t * hop)) v (Float.Fin 0)) in
        Ok (repeat (map frame (range (len v / hop + 1)))
                   (Z.to_nat (n_fft / 2 + 1)))
  end.

(** An aligned waveform whose fifth sample is [nan]. *)
Definition demo_aligned_nan : tensor Float.fval :=
  Vector (map Float.Fin [1; 2; 3; 4]%R ++ Float.NaN
          :: map Float.Fin [0; 0; 0]%R).

(** The finite aligned waveform [demo_aligned]. *)
Definition demo_aligned_finite : tensor Float.fval :=
  Vector (map Float.Fin [1; 2; 3; 4; 5; 0; 0; 0]%R).

(** * Properties *)

Unset Implicit Arguments.

(** ** Sequences *)

Section SequenceFacts.
Variable X : Type.
Implicit Types l : list X.

Lemma len_nonneg l : 0 <= len l.
Proof. unfold len. lia. Qed.

Lemma len_app l1 l2 : len (l1 ++ l2) = len l1 + len l2.
Proof. unfold len. rewrite length_app. lia. Qed.

Lemma len_repeat (x : X) (n : Z) : 0 <= n -> len (repeat x (Z.to_nat n)) = n.
Proof. intros Hn. unfold len. rewrite repeat_length. lia. Qed.

Lemma slice_bound_id n i : 0 <= i <= n -> slice_bound n i = i.
Proof.
  intros Hi. unfold slice_bound.
  destruct (i <? 0) eqn:E; [apply Z.ltb_lt in E; lia | lia].
Qed.

(** A slice whose bounds lie inside the list is the window between them. *)
Lemma slice_window l a b :
  0 <= a -> a <= b -> b <= len l ->
  slice l a b = firstn (Z.to_nat (b - a)) (skipn (Z.to_nat a) l).
Proof.
  intros Ha Hab Hb. unfold slice.
  rewrite !slice_bound_id by lia. reflexivity.
Qed.

Lemma len_slice_window l a b :
  0 <= a -> a <= b -> b <= len l -> len (slice l a b) = b - a.
Proof.
  intros Ha Hab Hb. rewrite slice_window by assumption.
  unfold len in *. rewrite length_firstn, length_skipn. lia.
Qed.

(** [l[0:-1]] drops the last element, if there is one. *)
Lemma slice_drop_last l : slice l 0 (-1) = removelast l.
Proof.
  unfold slice, slice_bound. cbn [Z.ltb Z.compare].
  replace (Z.max 0 (Z.min (len l) 0)) with 0 by (pose proof (len_nonneg l); lia).
  cbn [Z.to_nat skipn].
  replace (Z.to_nat (Z.max 0 (Z.min (len l) (-1 + len l)) - 0))
    with (Nat.pred (List.length l)) by (unfold len; lia).
  induction l as [|x l IH]; [reflexivity|].
  destruct l as [|y l]; [reflexivity|].
  cbn [List.length Nat.pred firstn] in *. rewrite IH. reflexivity.
Qed.

Lemma remove_nth_In n l x : In x (remove_nth n l) -> In x l.
Proof.
  revert n. induction l as [|y l IH]; intros [|n] H; cbn in *; auto.
  destruct H as [H|H]; eauto.
Qed.

Lemma remove_nth_length n l :
  (n < List.length l)%nat ->
  List.length (remove_nth n l) = Nat.pred (List.length l).
Proof.
  revert n. induction l as [|y l IH]; intros [|n] H; cbn in *; try lia.
  rewrite IH by lia. lia.
Qed.

Lemma remove_nth_NoDup n l : NoDup l -> NoDup (remove_nth n l).
Proof.
  revert n. induction l as [|y l IH]; intros [|n] H; cbn; auto.
  - inversion H; assumption.
  - inversion H as [|? ? Hy Hl]; subst. constructor; auto.
    intros Hin. apply Hy. eapply remove_nth_In; eassumption.
Qed.

Lemma remove_nth_fresh n l d :
  NoDup l -> (n < List.length l)%nat -> ~ In (nth n l d) (remove_nth n l).
Proof.
  revert n. induction l as [|y l IH]; intros [|n] Hnd Hn; cbn in *; try lia.
  - inversion Hnd; assumption.
  - inversion Hnd as [|? ? Hy Hl]; subst. intros [Heq|Hin].
    + apply Hy. rewrite Heq. apply nth_In. lia.
    + revert Hin. apply IH; [assumption | lia].
Qed.
End SequenceFacts.

(** ** The generator *)

(** The value of a draw is the next raw draw reduced into the range. *)
Lemma randint_ok low high g :
  low < high ->
  exists g',
    randint low high g = (Ok (low + tape g (pos g) mod (high - low)), g').
Proof.
  intros H. unfold randint.
  destruct (high <=? low) eqn:E; [apply Z.leb_le in E; lia|].
  destruct (high - low =? 1) eqn:E1.
  - apply Z.eqb_eq in E1. exists g. rewrite E1, Z.mod_1_r, Z.add_0_r.
    reflexivity.
  - eexists. reflexivity.
Qed.

Lemma randint_range low high g v g' :
  randint low high g = (Ok v, g') -> low <= v < high.
Proof.
  intros H. assert (Hlt : low < high).
  { unfold randint in H. destruct (high <=? low) eqn:E; [discriminate|].
    apply Z.leb_gt in E. exact E. }
  destruct (randint_ok low high g Hlt) as [g1 Hrun].
  rewrite Hrun in H. inversion H; subst.
  pose proof (Z.mod_pos_bound (tape g (pos g)) (high - low)). lia.
Qed.

(** A draw raises no other exception than [ValueError]. *)
Lemma randint_raises low high g e g' :
  randint low high g = (Raise e, g') -> e = ValueError.
Proof.
  unfold randint. destruct (high <=? low); [intros H; now inversion H|].
  destruct (high - low =? 1); [discriminate|]. cbn. discriminate.
Qed.

(** Every value of the half-open range is the outcome of some draw. *)
Lemma randint_reaches low high v :
  low <= v < high -> fst (randint low high (const_rng (v - low))) = Ok v.
Proof.
  intros H. destruct (randint_ok low high (const_rng (v - low))) as [g' Hrun];
    [lia|].
  rewrite Hrun. cbn. rewrite Z.mod_small by lia. f_equal. lia.
Qed.

Lemma draw_distinct_spec k : forall pool g,
  (k <= List.length pool)%nat -> NoDup pool ->
  exists idx g',
    draw_distinct k pool g = (Ok idx, g') /\
    List.length idx = k /\ NoDup idx /\ incl idx pool.
Proof.
  induction k as [|k IH]; intros pool g Hk Hnd.
  - exists [], g. repeat split; [constructor | intros x []].
  - cbn [draw_distinct]. unfold bind at 1.
    destruct (randint_ok 0 (Z.of_nat (List.length pool)) g) as [g1 Hdraw];
      [lia|].
    rewrite Hdraw.
    set (j := 0 + tape g (pos g) mod (Z.of_nat (List.length pool) - 0)).
    assert (Hj : (Z.to_nat j < List.length pool)%nat).
    { pose proof (Z.mod_pos_bound (tape g (pos g))
                    (Z.of_nat (List.length pool) - 0)). lia. }
    destruct (IH (remove_nth (Z.to_nat j) pool) g1)
      as (idx & g' & Hrun & Hlen & Hidx & Hincl).
    { rewrite remove_nth_length by assumption. lia. }
    { apply remove_nth_NoDup; assumption. }
    exists (nth (Z.to_nat j) pool 0 :: idx), g'.
    unfold bind. rewrite Hrun. cbn. repeat split.
    + now rewrite Hlen.
    + constructor; [|assumption].
      intros Hin. apply Hincl in Hin.
      revert Hin. apply remove_nth_fresh; assumption.
    + intros x [<-|Hin]; [apply nth_In; assumption|].
      eapply remove_nth_In. apply Hincl. assumption.
Qed.

Lemma range_NoDup n : NoDup (range n).
Proof.
  unfold range. apply NoDup_map_NoDup_ForallPairs.
  - intros a b _ _ H. lia.
  - apply seq_NoDup.
Qed.

Lemma range_In n i : In i (range n) -> 0 <= i < n.
Proof.
  unfold range. rewrite in_map_iff. intros (k & <- & Hk).
  apply in_seq in Hk. lia.
Qed.

Lemma range_length n : List.length (range n) = Z.to_nat n.
Proof. unfold range. now rewrite length_map, length_seq. Qed.

(** A permutation holds every index of the population exactly once. *)
Lemma permutation_spec n g :
  exists perm g',
    permutation n g = (Ok perm, g') /\
    List.length perm = Z.to_nat n /\ NoDup perm /\ incl perm (range n).
Proof.
  unfold permutation.
  destruct (draw_distinct_spec (Z.to_nat n) (range n) g)
    as (perm & g' & Hrun & Hlen & Hnd & Hincl).
  { rewrite range_length. lia. }
  { apply range_NoDup. }
  exists perm, g'. auto.
Qed.

Lemma choice_no_replace_ok n size g :
  0 <= size <= n ->
  exists idx g',
    choice_no_replace n size g = (Ok idx, g') /\
    len idx = size /\ NoDup idx /\ Forall (fun i => 0 <= i < n) idx.
Proof.
  intros H. unfold choice_no_replace.
  destruct (size <? 0) eqn:E1; [apply Z.ltb_lt in E1; lia|].
  destruct (Z.max 0 n <? size) eqn:E2; [apply Z.ltb_lt in E2; lia|].
  destruct (permutation_spec n g) as (perm & g' & Hrun & Hlen & Hnd & Hincl).
  exists (firstn (Z.to_nat size) perm), g'.
  unfold bind, ret. rewrite Hrun. repeat split.
  - unfold len. rewrite length_firstn, Hlen. lia.
  - rewrite <- (firstn_skipn (Z.to_nat size) perm) in Hnd.
    apply NoDup_app_remove_r in Hnd. exact Hnd.
  - apply Forall_forall. intros i Hi. apply range_In, Hincl.
    rewrite <- (firstn_skipn (Z.to_nat size) perm).
    apply in_or_app. left. exact Hi.
Qed.

Lemma choice_no_replace_too_many n size g :
  0 <= n -> n < size -> choice_no_replace n size g = (Raise ValueError, g).
Proof.
  intros Hn H. unfold choice_no_replace.
  destruct (size <? 0); [reflexivity|].
  destruct (Z.max 0 n <? size) eqn:E2; [reflexivity|].
  apply Z.ltb_ge in E2. lia.
Qed.

(** When every element can be processed from every generator state, so
    can the whole list, one result per element and in order. *)
Lemma mapM_ok {X Y} (f : X -> M Y) (l : list X) :
  Forall (fun x => forall g, exists y g', f x g = (Ok y, g')) l ->
  forall g, exists ys g',
    mapM f l g = (Ok ys, g') /\
    Forall2 (fun x y => exists ga gb, f x ga = (Ok y, gb)) l ys.
Proof.
  induction 1 as [|x l Hx Hl IH]; intros g.
  - exists [], g. split; [reflexivity | constructor].
  - destruct (Hx g) as (y & g1 & Hy).
    destruct (IH g1) as (ys & g2 & Hys & Hall).
    exists (y :: ys), g2. cbn [mapM]. unfold bind. rewrite Hy, Hys.
    split; [reflexivity|]. constructor; eauto.
Qed.

(** ** The segment sampler *)

(** [ceil_multiple] is what its name says. *)
Lemma ceil_multiple_least (n hop : Z) :
  0 < hop ->
  ceil_multiple n hop mod hop = 0 /\
  n <= ceil_multiple n hop /\
  (forall m, m mod hop = 0 -> n <= m -> ceil_multiple n hop <= m).
Proof.
  intros Hh. unfold ceil_multiple.
  pose proof (Z.div_mod (n + hop - 1) hop ltac:(lia)) as Hdm.
  pose proof (Z.mod_pos_bound (n + hop - 1) hop Hh) as Hmod.
  repeat split.
  - apply Z.mod_mul. lia.
  - nia.
  - intros m Hm Hn. apply Z.mod_divide in Hm; [|lia].
    destruct Hm as [k ->]. assert ((n + hop - 1) / hop <= k); [|nia].
    apply Z.lt_succ_r. apply Z.div_lt_upper_bound; nia.
Qed.

Section DatasetProperties.
Variable sample : Type.
Variable zero : sample.
Variable torchaudio_load : string -> result (list sample * Z).


Lemma samples_squeeze (row : list sample) : samples (squeeze row) = row.
Proof. destruct row as [|x [|y row]]; reflexivity. Qed.

Lemma squeeze_vector (row : list sample) :
  List.length row <> 1%nat -> squeeze row = Vector row.
Proof. destruct row as [|x [|y row]]; cbn; congruence. Qed.

(** The padding of evaluation mode is between one sample and one hop. *)
Lemma aligned_gap (n hop : Z) :
  0 < hop -> 0 < (n / hop + 1) * hop - n <= hop.
Proof.
  intros Hh. pose proof (Z.div_mod n hop ltac:(lia)) as Hdm.
  pose proof (Z.mod_pos_bound n hop Hh). nia.
Qed.

Lemma load_audio_eval ds path w sr g :
  training ds = false -> 0 < hop_length ds ->
  torchaudio_load path = Ok (w, sr) ->
  load_audio_to_torch zero torchaudio_load ds path g =
    (Ok (squeeze (w ++ repeat zero
           (Z.to_nat ((len w / hop_length ds + 1) * hop_length ds - len w))),
         sr), g).
Proof.
  intros Ht Hh Hl. unfold load_audio_to_torch, bind, lift.
  rewrite Hl, Ht. cbn [negb]. unfold floordiv.
  destruct (hop_length ds =? 0) eqn:E; [apply Z.eqb_eq in E; lia|].
  unfold pad_right. pose proof (aligned_gap (len w) (hop_length ds) Hh).
  destruct (0 <=? _) eqn:E2; [reflexivity | apply Z.leb_gt in E2; lia].
Qed.

Lemma load_audio_train ds path w sr g :
  training ds = true -> torchaudio_load path = Ok (w, sr) ->
  load_audio_to_torch zero torchaudio_load ds path g = (Ok (squeeze w, sr), g).
Proof.
  intros Ht Hl. unfold load_audio_to_torch, bind, lift.
  rewrite Hl, Ht. reflexivity.
Qed.

(** Loading never changes the sample rate it read, nor the generator. *)
Lemma load_audio_rate ds path w sr g t sr' g' :
  torchaudio_load path = Ok (w, sr) ->
  load_audio_to_torch zero torchaudio_load ds path g = (Ok (t, sr'), g') -> sr' = sr /\ g' = g.
Proof.
  intros Hl. unfold load_audio_to_torch, bind, lift. rewrite Hl.
  destruct (negb (training ds)).
  - destruct (floordiv _ _); [|discriminate].
    destruct (pad_right _ _ _); [|discriminate].
    unfold ret. intros H; inversion H; auto.
  - unfold ret. intros H; inversion H; auto.
Qed.

Lemma load_audio_no_assertion ds path w sr g g' :
  torchaudio_load path = Ok (w, sr) ->
  load_audio_to_torch zero torchaudio_load ds path g <> (Raise AssertionError, g').
Proof.
  intros Hl. unfold load_audio_to_torch, bind, lift. rewrite Hl.
  destruct (negb (training ds)); [|discriminate].
  unfold floordiv. destruct (_ =? 0); [discriminate|].
  unfold pad_right. destruct (0 <=? _); [discriminate|].
  destruct (0 <=? _); discriminate.
Qed.

(** In training mode a longer waveform is cropped at the offset the
    generator's next raw draw selects in [0 <= a < length - segment]. *)
Lemma getitem_crop ds index path w sr g :
  training ds = true ->
  getitem_list (audio_paths ds) index = Ok path ->
  torchaudio_load path = Ok (w, sr) ->
  sr = sample_rate ds ->
  List.length w <> 1%nat ->
  segment_length ds < len w ->
  let a := tape g (pos g) mod (len w - segment_length ds) in
  exists g',
    getitem zero torchaudio_load ds index g =
      (Ok (Vector (slice w a (a + segment_length ds))), g').
Proof.
  intros Ht Hp Hl Hsr Hw Hlong a. unfold getitem, bind at 1, lift at 1.
  rewrite Hp. unfold bind at 1.
  rewrite (load_audio_train ds path w sr g Ht Hl).
  rewrite Hsr, Z.eqb_refl, Ht. cbn [negb].
  rewrite squeeze_vector by assumption.
  unfold bind at 1, lift at 1. cbn [shape_last].
  apply Z.ltb_lt in Hlong. rewrite Hlong. apply Z.ltb_lt in Hlong.
  unfold bind.
  destruct (randint_ok 0 (len w - segment_length ds) g) as [g' Hdraw]; [lia|].
  rewrite Hdraw, Z.add_0_l, Z.sub_0_r. exists g'. reflexivity.
Qed.

(** In training mode a waveform no longer than the segment is padded
    with zeros on the right. *)
Lemma getitem_pad ds index path w sr g :
  training ds = true ->
  getitem_list (audio_paths ds) index = Ok path ->
  torchaudio_load path = Ok (w, sr) ->
  sr = sample_rate ds ->
  List.length w <> 1%nat ->
  len w <= segment_length ds ->
  getitem zero torchaudio_load ds index g =
    (Ok (Vector (w ++ repeat zero (Z.to_nat (segment_length ds - len w)))), g).
Proof.
  intros Ht Hp Hl Hsr Hw Hshort. unfold getitem, bind at 1, lift at 1.
  rewrite Hp. unfold bind at 1.
  rewrite (load_audio_train ds path w sr g Ht Hl).
  rewrite Hsr, Z.eqb_refl, Ht. cbn [negb].
  rewrite squeeze_vector by assumption.
  unfold bind at 1, lift at 1. cbn [shape_last].
  destruct (segment_length ds <? len w) eqn:E; [apply Z.ltb_lt in E; lia|].
  unfold lift, pad_tensor, pad_right.
  destruct (0 <=? _) eqn:E2; [reflexivity | apply Z.leb_gt in E2; lia].
Qed.

(** Every offset below [length - segment] is the outcome of some draw. *)
Lemma crop_offset_reachable ds index path w sr a :
  training ds = true ->
  getitem_list (audio_paths ds) index = Ok path ->
  torchaudio_load path = Ok (w, sr) ->
  sr = sample_rate ds ->
  List.length w <> 1%nat ->
  0 <= a < len w - segment_length ds ->
  fst (getitem zero torchaudio_load ds index (const_rng a)) =
    Ok (Vector (slice w a (a + segment_length ds))).
Proof.
  intros Ht Hp Hl Hsr Hw Ha.
  destruct (getitem_crop ds index path w sr (const_rng a) Ht Hp Hl Hsr Hw)
    as [g' Hrun]; [lia|].
  rewrite Hrun.
  cbn [fst const_rng tape pos]. rewrite Z.mod_small by lia. reflexivity.
Qed.

(** C2. In evaluation mode [load_audio_to_torch] right-pads a waveform
    of length [L] with zeros to the length [(L // hop_length + 1) *
    hop_length]: the result is the original samples followed by zeros,
    its length is a multiple of [hop_length] and at least [L], and its
    first [L] samples are the original waveform. *)
Theorem eval_padding_aligned ds path w sr g :
  training ds = false -> 0 < hop_length ds ->
  torchaudio_load path = Ok (w, sr) ->
  exists t,
    load_audio_to_torch zero torchaudio_load ds path g = (Ok (t, sr), g) /\
    let A := (len w / hop_length ds + 1) * hop_length ds in
    samples t = w ++ repeat zero (Z.to_nat (A - len w)) /\
    len (samples t) = A /\
    A mod hop_length ds = 0 /\
    len w <= A /\
    firstn (List.length w) (samples t) = w.
Proof.
  intros Ht Hh Hl. eexists. split.
  - apply load_audio_eval; eassumption.
  - cbv zeta. rewrite samples_squeeze.
    pose proof (aligned_gap (len w) (hop_length ds) Hh) as Hgap.
    repeat split.
    + rewrite len_app, len_repeat by lia. lia.
    + apply Z.mod_mul. lia.
    + lia.
    + rewrite firstn_app, Nat.sub_diag, firstn_all. cbn. apply app_nil_r.
Qed.

(** C3 (amended). In evaluation mode the padded length is the smallest
    multiple of [hop_length] that is strictly greater than [L]: between
    one sample and one whole hop of zeros is appended, and a whole hop
    exactly when [L] is already a multiple of [hop_length]. *)
Theorem eval_padding_least_multiple_above ds path w sr g :
  training ds = false -> 0 < hop_length ds ->
  torchaudio_load path = Ok (w, sr) ->
  exists t,
    load_audio_to_torch zero torchaudio_load ds path g = (Ok (t, sr), g) /\
    let A := len (samples t) in
    A mod hop_length ds = 0 /\
    len w < A /\
    (forall m, m mod hop_length ds = 0 -> len w < m -> A <= m) /\
    A - len w <= hop_length ds /\
    (A - len w = hop_length ds <-> len w mod hop_length ds = 0) /\
    (len w mod hop_length ds = 0 ->
     A = spec_aligned_length (len w) (hop_length ds)).
Proof.
  intros Ht Hh Hl. eexists. split.
  - apply load_audio_eval; eassumption.
  - cbv zeta. rewrite samples_squeeze.
    pose proof (aligned_gap (len w) (hop_length ds) Hh) as Hgap.
    rewrite len_app, len_repeat by lia.
    set (h := hop_length ds) in *. set (L := len w) in *.
    replace (L + ((L / h + 1) * h - L)) with ((L / h + 1) * h) by lia.
    pose proof (Z.div_mod L h ltac:(lia)) as Hdm.
    pose proof (Z.mod_pos_bound L h Hh) as Hmod.
    repeat split.
    + apply Z.mod_mul. lia.
    + lia.
    + intros m Hm HL. apply Z.mod_divide in Hm; [|lia].
      destruct Hm as [k ->]. assert (L / h < k) by nia. nia.
    + lia.
    + intros He. nia.
    + intros He. nia.
    + intros He. unfold spec_aligned_length, ceil_multiple.
      rewrite He, Z.add_0_r in Hdm.
      assert (HL : L + h - 1 = (h - 1) + (L / h) * h).
      { rewrite (Z.mul_comm (L / h) h), <- Hdm. ring. }
      rewrite HL, Z.div_add, (Z.div_small (h - 1) h) by lia. ring.
Qed.
(** A waveform of exactly one sample is squeezed to rank zero, and
    [audio.shape[-1]] then fails: in training mode no segment is
    returned for it. *)
Lemma getitem_single_sample ds index path x sr g :
  training ds = true ->
  getitem_list (audio_paths ds) index = Ok path ->
  torchaudio_load path = Ok ([x], sr) ->
  sr = sample_rate ds ->
  getitem zero torchaudio_load ds index g = (Raise IndexError, g).
Proof.
  intros Ht Hp Hl Hsr. unfold getitem, bind at 1, lift at 1.
  rewrite Hp. unfold bind at 1.
  rewrite (load_audio_train ds path [x] sr g Ht Hl).
  rewrite Hsr, Z.eqb_refl, Ht. reflexivity.
Qed.

(** For every other length, the waveform returned by [__getitem__] in
    training mode has exactly [segment_length] samples: a contiguous
    window of a longer source, or a source of at most [segment_length]
    samples followed by zeros. *)
Theorem training_segment_length ds index path w sr g :
  training ds = true -> 0 <= segment_length ds ->
  getitem_list (audio_paths ds) index = Ok path ->
  torchaudio_load path = Ok (w, sr) ->
  sr = sample_rate ds ->
  List.length w <> 1%nat ->
  exists seg g',
    getitem zero torchaudio_load ds index g = (Ok (Vector seg), g') /\
    len seg = segment_length ds /\
    (segment_length ds < len w ->
     exists a, 0 <= a /\ a + segment_length ds <= len w /\
       seg = firstn (Z.to_nat (segment_length ds)) (skipn (Z.to_nat a) w)) /\
    (len w <= segment_length ds ->
     seg = w ++ repeat zero (Z.to_nat (segment_length ds - len w))).
Proof.
  intros Ht Hseg Hp Hl Hsr Hw.
  destruct (Z.lt_ge_cases (segment_length ds) (len w)) as [Hlong|Hshort].
  - pose proof (getitem_crop ds index path w sr g Ht Hp Hl Hsr Hw Hlong) as Hrun.
    cbv zeta in Hrun.
    set (a := tape g (pos g) mod (len w - segment_length ds)) in *.
    assert (Ha : 0 <= a < len w - segment_length ds)
      by (apply Z.mod_pos_bound; lia).
    destruct Hrun as [g' Hrun].
    do 2 eexists. split; [exact Hrun|]. split; [|split].
    + rewrite len_slice_window by lia. lia.
    + intros _. exists a. repeat split; try lia.
      rewrite slice_window by lia. do 2 f_equal. lia.
    + intros Hle. lia.
  - pose proof (getitem_pad ds index path w sr g Ht Hp Hl Hsr Hw Hshort) as Hrun.
    do 2 eexists. split; [exact Hrun|]. split; [|split].
    + rewrite len_app, len_repeat by lia. lia.
    + intros Hlt. lia.
    + intros _. reflexivity.
Qed.

(** C6. When the sample rate of the loaded file differs from the
    configured one, [__getitem__] raises and returns no item (the
    assertion fails as soon as the file has been loaded); when the rates
    agree the assertion never fails. *)
Theorem sample_rate_mismatch_raises ds index path w sr g :
  getitem_list (audio_paths ds) index = Ok path ->
  torchaudio_load path = Ok (w, sr) ->
  (sr <> sample_rate ds ->
   (exists e, fst (getitem zero torchaudio_load ds index g) = Raise e) /\
   (training ds = true \/ 0 < hop_length ds ->
    getitem zero torchaudio_load ds index g = (Raise AssertionError, g))) /\
  (sr = sample_rate ds -> fst (getitem zero torchaudio_load ds index g) <> Raise AssertionError).
Proof.
  intros Hp Hl. unfold getitem, bind, lift. rewrite Hp.
  destruct (load_audio_to_torch zero torchaudio_load ds path g) as [[[t sr']|e] g1] eqn:E.
  - destruct (load_audio_rate ds path w sr g t sr' g1 Hl E) as [-> ->].
    split.
    + intros Hne. apply Z.eqb_neq in Hne. rewrite Hne.
      split; [exists AssertionError; reflexivity | reflexivity].
    + intros ->. rewrite Z.eqb_refl.
      destruct (negb (training ds)); [discriminate|].
      destruct t as [x|v]; cbn [shape_last]; [discriminate|].
      destruct (segment_length ds <? len v).
      * destruct (randint 0 (len v - segment_length ds) g) as [[a|e] g2] eqn:Ea;
          cbn; [discriminate|].
        apply randint_raises in Ea. subst e. discriminate.
      * unfold pad_tensor, pad_right.
        destruct (0 <=? _); [|destruct (0 <=? _)]; cbn; discriminate.
  - split.
    + intros Hne. split; [exists e; reflexivity|].
      intros [Ht|Hh].
      * rewrite (load_audio_train ds path w sr g Ht Hl) in E. discriminate.
      * destruct (training ds) eqn:Ht.
        -- rewrite (load_audio_train ds path w sr g Ht Hl) in E. discriminate.
        -- rewrite (load_audio_eval ds path w sr g Ht Hh Hl) in E. discriminate.
    + intros _ Habs. cbn in Habs. inversion Habs; subst.
      exact (load_audio_no_assertion ds path w sr g g1 Hl E).
Qed.

(** C7. [sample_test_batch] asked for more items than the dataset holds
    raises [ValueError]; asked for [size] items of a dataset that holds at
    least as many, it processes, in order, [size] pairwise distinct
    indices of the dataset, and returns their [size] items whenever every
    item of the dataset can be produced. *)
Theorem sample_test_batch_distinct ds size g :
  (dataset_len ds < size ->
   fst (sample_test_batch zero torchaudio_load ds size g) = Raise ValueError) /\
  (0 <= size <= dataset_len ds ->
   exists idx g1,
     NoDup idx /\ len idx = size /\
     Forall (fun i => 0 <= i < dataset_len ds) idx /\
     sample_test_batch zero torchaudio_load ds size g =
       mapM (getitem zero torchaudio_load ds) idx g1 /\
     ((forall i g0, 0 <= i < dataset_len ds ->
                    exists t g0', getitem zero torchaudio_load ds i g0 = (Ok t, g0')) ->
      exists batch g',
        sample_test_batch zero torchaudio_load ds size g = (Ok batch, g') /\
        len batch = size /\
        Forall2 (fun i t => exists ga gb, getitem zero torchaudio_load ds i ga = (Ok t, gb))
                idx batch)).
Proof.
  unfold sample_test_batch. split.
  - intros Hbig. unfold bind.
    rewrite choice_no_replace_too_many; [reflexivity | | assumption].
    apply len_nonneg.
  - intros Hsize.
    destruct (choice_no_replace_ok (dataset_len ds) size g Hsize)
      as (idx & g1 & Hrun & Hlen & Hnd & Hrange).
    exists idx, g1. unfold bind at 1. rewrite Hrun.
    repeat split; auto.
    intros Hitems.
    destruct (mapM_ok (getitem zero torchaudio_load ds) idx) with (g := g1)
      as (batch & g' & Hbatch & Hall).
    { apply Forall_forall. intros i Hi g0.
      rewrite Forall_forall in Hrange. apply Hitems, Hrange, Hi. }
    exists batch, g'. split; [|split].
    + unfold bind. rewrite Hrun. exact Hbatch.
    + apply Forall2_length in Hall. unfold len in *. lia.
    + exact Hall.
Qed.
End DatasetProperties.

(** ** The mel feature extractor *)

Lemma ln_10_pos : (0 < ln 10)%R.
Proof. rewrite <- ln_1. apply ln_increasing; lra. Qed.

Lemma log10_monotone (x y : R) : (0 < x)%R -> (x <= y)%R -> (log10 x <= log10 y)%R.
Proof.
  intros Hx [Hlt | ->]; [|apply Rle_refl].
  unfold log10. apply Rmult_le_compat_r.
  - left. apply Rinv_0_lt_compat, ln_10_pos.
  - left. apply ln_increasing; assumption.
Qed.

Lemma removelast_length {X} (l : list X) :
  List.length (removelast l) = Nat.pred (List.length l).
Proof.
  induction l as [|x l IH]; [reflexivity|].
  destruct l; [reflexivity|]. cbn [removelast List.length] in *. lia.
Qed.

Lemma drop_last_frame_removelast (m : matrix) :
  drop_last_frame m = map (@removelast R) m.
Proof. unfold drop_last_frame. apply map_ext. apply slice_drop_last. Qed.

Lemma matmul_ok (a b : matrix) :
  Forall (fun row => List.length row = List.length b) a ->
  matmul a b =
    Ok (map (fun arow => map (fun t => dot arow (column b t)) (seq 0 (ncols b))) a).
Proof.
  intros H. unfold matmul.
  replace (forallb _ a) with true; [reflexivity|].
  symmetry. apply forallb_forall. rewrite Forall_forall in H.
  intros row Hrow. apply Nat.eqb_eq. auto.
Qed.

Lemma dot_zero_r (u v : list R) :
  Forall (fun x => x = 0%R) v -> dot u v = 0%R.
Proof.
  intros Hv. revert u. induction Hv as [|x v Hx Hv IH]; intros [|a u];
    try reflexivity.
  unfold dot in *. cbn. rewrite IH, Hx. lra.
Qed.

Lemma column_zero (m : matrix) (t : nat) :
  Forall (Forall (fun x => x = 0%R)) m -> Forall (fun x => x = 0%R) (column m t).
Proof.
  intros H. unfold column. apply Forall_map.
  eapply Forall_impl; [|exact H]. intros row Hrow. cbn.
  destruct (nth_in_or_default t row 0%R) as [Hin | ->]; [|reflexivity].
  rewrite Forall_forall in Hrow. auto.
Qed.

Lemma tensor_abs_zero (m : matrix) :
  Forall (Forall (fun x => x = 0%R)) m ->
  Forall (Forall (fun x => x = 0%R)) (tensor_abs m).
Proof.
  intros H. unfold tensor_abs. apply Forall_map.
  eapply Forall_impl; [|exact H]. intros row Hrow. apply Forall_map.
  eapply Forall_impl; [|exact Hrow]. intros x ->. apply Rabs_R0.
Qed.

Lemma ncols_tensor_abs (m : matrix) : ncols (tensor_abs m) = ncols m.
Proof. destruct m; cbn; [reflexivity | apply length_map]. Qed.

Lemma removelast_map_seq {X} (f : nat -> X) (n : nat) :
  removelast (map f (seq 0 n)) = map f (seq 0 (Nat.pred n)).
Proof.
  destruct n as [|n]; [reflexivity|].
  rewrite seq_S, map_app. cbn [map Nat.pred Nat.add]. apply removelast_last.
Qed.

(** ** Finite values in the floating-point model *)

Lemma float_dot_finite (u v : list R) :
  Float.dot u (map Float.Fin v) = Float.Fin (dot u v).
Proof.
  revert v. induction u as [|a u IH]; intros [|b v]; try reflexivity.
  unfold Float.dot, dot in *. cbn [map combine fold_right fst snd].
  rewrite IH. reflexivity.
Qed.

Lemma float_column_finite (S : matrix) (t : nat) :
  Float.column (Float.finite S) t = map Float.Fin (column S t).
Proof.
  unfold Float.column, Float.finite, column. rewrite !map_map.
  apply map_ext. intros row. apply (map_nth Float.Fin).
Qed.

Lemma float_abs_finite (S : matrix) :
  Float.tensor_abs (Float.finite S) = Float.finite (tensor_abs S).
Proof.
  unfold Float.tensor_abs, Float.finite, tensor_abs. rewrite !map_map.
  apply map_ext. intros row. now rewrite !map_map.
Qed.

Lemma float_ncols_finite (S : matrix) : Float.ncols (Float.finite S) = ncols S.
Proof. destruct S; cbn; [reflexivity | apply length_map]. Qed.

(** Without a floor the logarithm of a silent frame is minus infinity. *)
Lemma float_log10_zero : Float.flog10 (Float.Fin 0) = Float.NegInf.
Proof.
  cbn [Float.flog10].
  destruct (Rlt_dec 0 0) as [H|_]; [lra|].
  destruct (Rlt_dec 0 0) as [H|_]; [lra | reflexivity].
Qed.

(** A frame whose magnitudes are [nan] gives a [nan] entry for every
    mel filter, whatever the floor: neither the projection, nor
    [clamp_min], nor [log10] removes it. *)
Lemma float_nan_frame (brow : list R) (col : list Float.fval) (lo : R) :
  brow <> [] -> col <> [] -> Forall (fun x => x = Float.NaN) col ->
  Float.flog10 (Float.fclamp_min (Float.dot brow col) lo) = Float.NaN.
Proof.
  intros Hb Hc Hnan. destruct brow as [|a brow]; [congruence|].
  destruct col as [|x col]; [congruence|].
  inversion Hnan as [|? ? Hx _]; subst. reflexivity.
Qed.

(** Above a positive floor the logarithm of a clamped finite value is
    finite. *)
Lemma float_log10_clamp (x lo : R) :
  (0 < lo)%R ->
  Float.flog10 (Float.fclamp_min (Float.Fin x) lo) =
    Float.Fin (log10 (Rmax x lo)).
Proof.
  intros Hlo. cbn [Float.fclamp_min Float.flog10].
  pose proof (Rbasic_fun.Rmax_r x lo).
  destruct (Rlt_dec 0 (Rmax x lo)); [reflexivity | lra].
Qed.

Section MelProperties.
Variable Spectrogram : Z -> option Z -> option Z -> tensor R -> result matrix.


(** The value of [forward] once the transform has produced a spectrogram
    whose bins match the filterbank. *)
Lemma forward_run self audio remove_last g S :
  spectrogram Spectrogram self audio = Ok S ->
  Forall (fun row => List.length row = List.length S) (mel_basis self) ->
  exists prod,
    matmul (mel_basis self) (tensor_abs S) = Ok prod /\
    List.length prod = List.length (mel_basis self) /\
    Forall (fun row => List.length row = ncols S) prod /\
    (Forall (Forall (fun x => x = 0%R)) S ->
     Forall (Forall (fun x => x = 0%R)) prod) /\
    forward Spectrogram self audio remove_last g =
      (Ok (if default remove_last true
           then map (@removelast R) (tensor_log10 (clamp_min prod (eps self)))
           else tensor_log10 (clamp_min prod (eps self))), g).
Proof.
  intros HS Hshape. eexists. split; [|split; [|split; [|split]]].
  - apply matmul_ok. unfold tensor_abs at 1. rewrite length_map. exact Hshape.
  - apply length_map.
  - apply Forall_map, Forall_forall. intros row _.
    rewrite length_map, length_seq. apply ncols_tensor_abs.
  - intros Hz. apply Forall_map, Forall_forall. intros row _.
    apply Forall_map, Forall_forall. intros t _.
    apply dot_zero_r, column_zero, tensor_abs_zero, Hz.
  - unfold forward, bind, lift, ret. rewrite HS.
    rewrite matmul_ok
      by (unfold tensor_abs at 1; rewrite length_map; exact Hshape).
    rewrite drop_last_frame_removelast. reflexivity.
Qed.
Lemma log10_clamp_row_lengths (m : matrix) (lo : R) (n : nat) :
  Forall (fun row => List.length row = n) m ->
  Forall (fun row => List.length row = n) (tensor_log10 (clamp_min m lo)).
Proof.
  intros H. unfold tensor_log10, clamp_min. rewrite map_map.
  apply Forall_map. eapply Forall_impl; [|exact H].
  intros row Hrow. cbn. now rewrite !length_map.
Qed.

(** The value of [forward], entry by entry, once the transform has
    produced a spectrogram whose bins match the filterbank: the entry of
    mel filter [brow] at frame [t] is the logarithm of the clamped
    projection of that frame. *)
Lemma forward_value self audio remove_last g S :
  spectrogram Spectrogram self audio = Ok S ->
  Forall (fun row => List.length row = List.length S) (mel_basis self) ->
  forward Spectrogram self audio remove_last g =
    (Ok (map (fun brow =>
                map (fun t =>
                       log10 (Rmax (dot brow (column (tensor_abs S) t))
                                   (eps self)))
                    (seq 0 (if default remove_last true
                            then Nat.pred (ncols S) else ncols S)))
             (mel_basis self)), g).
Proof.
  intros HS Hshape. unfold forward, bind, lift, ret. rewrite HS.
  rewrite matmul_ok
    by (unfold tensor_abs at 1; rewrite length_map; exact Hshape).
  rewrite drop_last_frame_removelast, ncols_tensor_abs.
  unfold tensor_log10, clamp_min. rewrite !map_map.
  destruct (default remove_last true).
  - do 2 f_equal. apply map_ext. intros brow.
    rewrite !map_map. apply removelast_map_seq.
  - do 2 f_equal. apply map_ext. intros brow. now rewrite !map_map.
Qed.

(** C10. [remove_last] defaults to [True].  A call of [forward] without
    the flag is the call with [remove_last=True]; and when the transform
    has produced a spectrogram that matches the filterbank, the call with
    [remove_last=False] returns, for every mel filter, one entry per frame
    of the transform, while the call without the flag returns the same
    rows without their last frame: one entry fewer per row, and a
    different result as soon as there is a filter and a frame. *)
Theorem remove_last_defaults_to_true self audio g :
  forward Spectrogram self audio None g =
    forward Spectrogram self audio (Some true) g /\
  (forall S,
     spectrogram Spectrogram self audio = Ok S ->
     Forall (fun row => List.length row = List.length S) (mel_basis self) ->
     let entry brow t :=
       log10 (Rmax (dot brow (column (tensor_abs S) t)) (eps self)) in
     let table frames :=
       map (fun brow => map (entry brow) (seq 0 frames)) (mel_basis self) in
     forward Spectrogram self audio (Some false) g =
       (Ok (table (ncols S)), g) /\
     forward Spectrogram self audio None g =
       (Ok (table (Nat.pred (ncols S))), g) /\
     table (Nat.pred (ncols S)) = map (@removelast R) (table (ncols S)) /\
     List.length (table (ncols S)) = List.length (mel_basis self) /\
     Forall (fun row => List.length row = ncols S) (table (ncols S)) /\
     Forall (fun row => List.length row = Nat.pred (ncols S))
            (table (Nat.pred (ncols S))) /\
     (mel_basis self <> [] -> ncols S <> O ->
      forward Spectrogram self audio None g <>
        forward Spectrogram self audio (Some false) g)).
Proof.
  split; [reflexivity|]. intros S HS Hshape entry table.
  pose proof (forward_value self audio (Some false) g S HS Hshape) as Hfull.
  pose proof (forward_value self audio None g S HS Hshape) as Hdrop.
  cbn [default] in Hfull, Hdrop.
  assert (Hrows : forall n, Forall (fun row => List.length row = n) (table n)).
  { intros n. apply Forall_map, Forall_forall. intros brow _.
    now rewrite length_map, length_seq. }
  split; [exact Hfull|]. split; [exact Hdrop|].
  split; [|split; [|split; [|split]]].
  - unfold table. rewrite map_map. apply map_ext. intros brow.
    symmetry. apply removelast_map_seq.
  - apply length_map.
  - apply Hrows.
  - apply Hrows.
  - intros Hbasis Hframes. rewrite Hfull, Hdrop. intros Heq.
    injection Heq as Htab.
    change (table (Nat.pred (ncols S)) = table (ncols S)) in Htab.
    pose proof (Hrows (ncols S)) as Hfullrows.
    pose proof (Hrows (Nat.pred (ncols S))) as Hdroprows.
    rewrite Htab in Hdroprows. unfold table in Hfullrows, Hdroprows.
    destruct (mel_basis self) as [|brow basis]; [congruence|].
    cbn [map] in Hfullrows, Hdroprows.
    inversion Hfullrows as [|? ? Hfirst _].
    inversion Hdroprows as [|? ? Hfirst' _].
    rewrite Hfirst in Hfirst'. lia.
Qed.

Variable torchaudio_load : string -> result (list R * Z).

(** C5. An evaluation-mode waveform, padded to the aligned length [A],
    yields with the last-frame drop a mel spectrogram of exactly
    [A / hop_length] frames: the transform emits [A / hop_length + 1]
    frames (its documented frame count), and [remove_last] removes the
    final one and leaves the others as they are. *)
Theorem eval_mel_frame_count ds path w sr g self t S :
  training ds = false -> 0 < hop_length ds ->
  torchaudio_load path = Ok (w, sr) ->
  load_audio_to_torch 0%R torchaudio_load ds path g = (Ok (t, sr), g) ->
  effective_hop self = hop_length ds ->
  (forall t' S', spectrogram Spectrogram self t' = Ok S' ->
     S' <> [] /\
     Forall (fun row => len row = len (samples t') / effective_hop self + 1) S') ->
  spectrogram Spectrogram self t = Ok S ->
  Forall (fun row => List.length row = List.length S) (mel_basis self) ->
  let A := len (samples t) in
  A = (len w / hop_length ds + 1) * hop_length ds /\
  A / hop_length ds * hop_length ds = A /\
  exists mel full,
    forward Spectrogram self t (Some true) g = (Ok mel, g) /\
    forward Spectrogram self t (Some false) g = (Ok full, g) /\
    Forall (fun row => len row = A / hop_length ds + 1) full /\
    Forall (fun row => len row = A / hop_length ds) mel /\
    List.length mel = List.length (mel_basis self) /\
    mel = map (@removelast R) full /\
    Forall2 (fun row frow => row = firstn (Z.to_nat (A / hop_length ds)) frow)
            mel full.
Proof.
  intros Ht Hh Hl Hload Hhop Hframes HS Hshape A.
  rewrite (load_audio_eval R 0%R torchaudio_load ds path w sr g Ht Hh Hl) in Hload.
  assert (HA : A = (len w / hop_length ds + 1) * hop_length ds).
  { assert (Ht' : t = squeeze (w ++ repeat 0%R (Z.to_nat
               ((len w / hop_length ds + 1) * hop_length ds - len w))))
      by (inversion Hload; reflexivity).
    unfold A. rewrite Ht', samples_squeeze.
    pose proof (aligned_gap (len w) (hop_length ds) Hh).
    rewrite len_app, len_repeat by lia. lia. }
  split; [exact HA|]. split.
  { rewrite HA, Z.div_mul by lia. reflexivity. }
  destruct (Hframes t S HS) as [Hne Hrows]. rewrite Hhop in Hrows. fold A in Hrows.
  assert (HAnn : 0 <= A / hop_length ds).
  { apply Z.div_pos; [apply len_nonneg | assumption]. }
  assert (Hcols : Z.of_nat (ncols S) = A / hop_length ds + 1).
  { destruct S as [|row S]; [congruence|]. inversion Hrows; subst. assumption. }
  destruct (forward_run self t (Some true) g S HS Hshape)
    as (prod & Hmm & Hlen & Hpc & _ & Hrun1).
  destruct (forward_run self t (Some false) g S HS Hshape)
    as (prod' & Hmm' & _ & _ & _ & Hrun2).
  rewrite Hmm in Hmm'. inversion Hmm'; subst prod'. cbn [default] in Hrun1, Hrun2.
  pose proof (log10_clamp_row_lengths prod (eps self) (ncols S) Hpc) as Hfull.
  set (full := tensor_log10 (clamp_min prod (eps self))) in *.
  exists (map (@removelast R) full), full.
  split; [exact Hrun1|]. split; [exact Hrun2|].
  split; [|split; [|split; [|split]]].
  - eapply Forall_impl; [|exact Hfull]. intros row Hrow. cbn in Hrow.
    unfold len. lia.
  - apply Forall_map. eapply Forall_impl; [|exact Hfull].
    intros row Hrow. cbn in Hrow. unfold len.
    rewrite removelast_length. lia.
  - subst full. unfold tensor_log10, clamp_min. now rewrite !length_map.
  - reflexivity.
  - clear Hrun1 Hrun2. induction Hfull as [|row rest Hrow Hrest IH];
      cbn [map]; constructor; [|exact IH].
    rewrite removelast_firstn_len. f_equal. lia.
Qed.
End MelProperties.

(** ** The mel feature extractor on floating-point values *)

Section FloatProperties.
Variable Spectrogram :
  Z -> option Z -> option Z -> tensor Float.fval -> result Float.fmatrix.

(** On a finite spectrogram and with a positive floor the floating-point
    [forward] computes the finite values of [forward_value]. *)
Lemma float_forward_finite self audio remove_last g S :
  (0 < eps self)%R ->
  Float.spectrogram Spectrogram self audio = Ok (Float.finite S) ->
  Forall (fun row => List.length row = List.length S) (mel_basis self) ->
  Float.forward Spectrogram self audio remove_last g =
    (Ok (map (fun brow =>
                map (fun t =>
                       Float.Fin
                         (log10 (Rmax (dot brow (column (tensor_abs S) t))
                                      (eps self))))
                    (seq 0 (if default remove_last true
                            then Nat.pred (ncols S) else ncols S)))
             (mel_basis self)), g).
Proof.
  intros Heps HS Hshape. unfold Float.forward, bind, lift, ret. rewrite HS.
  rewrite float_abs_finite. unfold Float.matmul.
  replace (forallb _ (mel_basis self)) with true.
  2:{ symmetry. apply forallb_forall. rewrite Forall_forall in Hshape.
      intros row Hrow. apply Nat.eqb_eq. unfold Float.finite, tensor_abs.
      rewrite !length_map. auto. }
  rewrite float_ncols_finite, ncols_tensor_abs.
  unfold Float.drop_last_frame, Float.tensor_log10, Float.clamp_min.
  rewrite !map_map.
  assert (Hentry : forall brow t,
    Float.flog10
      (Float.fclamp_min
         (Float.dot brow (Float.column (Float.finite (tensor_abs S)) t))
         (eps self)) =
    Float.Fin (log10 (Rmax (dot brow (column (tensor_abs S) t)) (eps self)))).
  { intros brow t. rewrite float_column_finite, float_dot_finite.
    apply float_log10_clamp. exact Heps. }
  destruct (default remove_last true).
  - do 2 f_equal. apply map_ext. intros brow.
    rewrite slice_drop_last, !map_map.
    rewrite (map_ext _ _ (Hentry brow)). apply removelast_map_seq.
  - do 2 f_equal. apply map_ext. intros brow.
    rewrite !map_map. apply map_ext. intros t. apply Hentry.
Qed.

(** C9 (amended). On a finite spectrogram (no [nan], no infinity) and
    with a positive [eps], every entry of the mel projection is clamped
    from below by [eps] before the logarithm: the entry of a mel filter at
    a frame is [log10 (max (projection, eps))], a finite value that is at
    least [log10 eps], so the result holds neither minus infinity nor
    [nan]; on an all-zero spectrogram every entry is exactly
    [log10 eps]. *)
Theorem mel_entries_floored self audio remove_last g S :
  (0 < eps self)%R ->
  Float.spectrogram Spectrogram self audio = Ok (Float.finite S) ->
  Forall (fun row => List.length row = List.length S) (mel_basis self) ->
  let projection brow t := dot brow (column (tensor_abs S) t) in
  let frames :=
    if default remove_last true then Nat.pred (ncols S) else ncols S in
  exists mel,
    Float.forward Spectrogram self audio remove_last g = (Ok mel, g) /\
    mel =
      map (fun brow =>
             map (fun t =>
                    Float.Fin (log10 (Rmax (projection brow t) (eps self))))
                 (seq 0 frames))
          (mel_basis self) /\
    Forall (Forall (fun v =>
                      Float.fle (Float.Fin (log10 (eps self))) v /\
                      v <> Float.NegInf /\ v <> Float.NaN)) mel /\
    (Forall (Forall (fun x => x = 0%R)) S ->
     Forall (Forall (fun v => v = Float.Fin (log10 (eps self)))) mel).
Proof.
  intros Heps HS Hshape projection frames.
  eexists. split.
  { exact (float_forward_finite self audio remove_last g S Heps HS Hshape). }
  split; [reflexivity|]. split.
  - apply Forall_map, Forall_forall. intros brow _.
    apply Forall_map, Forall_forall. intros t _.
    split; [|split; discriminate].
    cbn [Float.fle]. apply log10_monotone; [assumption|].
    apply Rbasic_fun.Rmax_r.
  - intros Hzero.
    apply Forall_map, Forall_forall. intros brow _.
    apply Forall_map, Forall_forall. intros t _.
    rewrite (dot_zero_r brow (column (tensor_abs S) t))
      by (apply column_zero, tensor_abs_zero, Hzero).
    rewrite Rmax_right by lra. reflexivity.
Qed.

(** The two embeddings of [forward] agree on finite values: when the
    floating-point transform gives the finite image of the real one's
    spectrogram, so does the floating-point [forward] of the real one's
    result. *)
Lemma float_forward_agrees Spectrogram_real self audio_real audio
    remove_last g S :
  (0 < eps self)%R ->
  spectrogram Spectrogram_real self audio_real = Ok S ->
  Float.spectrogram Spectrogram self audio = Ok (Float.finite S) ->
  Forall (fun row => List.length row = List.length S) (mel_basis self) ->
  exists mel,
    forward Spectrogram_real self audio_real remove_last g = (Ok mel, g) /\
    Float.forward Spectrogram self audio remove_last g =
      (Ok (Float.finite mel), g).
Proof.
  intros Heps HR HF Hshape. eexists. split.
  - exact (forward_value Spectrogram_real self audio_real remove_last g S
             HR Hshape).
  - rewrite (float_forward_finite self audio remove_last g S Heps HF Hshape).
    unfold Float.finite. rewrite map_map.
    apply (f_equal (fun m => (Ok m, g))).
    apply map_ext. intros brow. now rewrite map_map.
Qed.
End FloatProperties.

(** ** The properties on the example inputs *)

(** C1. With a waveform of five samples and a segment of three, whatever
    the generator draws, the crop starts at offset 0 or 1: the last
    offset of the range, [2 = length - segment_length], is never chosen,
    and the segment that ends with the last sample is never returned. *)
Theorem crop_never_starts_at_last_offset (g : rng) :
  (exists a, 0 <= a < 2 /\
     fst (getitem 0 demo_files demo_train 0 g) =
       Ok (Vector (slice [1; 2; 3; 4; 5] a (a + 3)))) /\
  slice [1; 2; 3; 4; 5] 2 (2 + 3) = [3; 4; 5] /\
  fst (getitem 0 demo_files demo_train 0 g) <> Ok (Vector [3; 4; 5]).
Proof.
  pose proof (getitem_crop Z 0 demo_files demo_train 0 "five.wav"
                [1; 2; 3; 4; 5] 22050 g eq_refl eq_refl eq_refl eq_refl
                ltac:(discriminate) eq_refl) as Hrun.
  cbv zeta in Hrun. destruct Hrun as [g' Hrun]. rewrite Hrun. cbn [fst].
  change (len [1; 2; 3; 4; 5] - segment_length demo_train) with 2.
  change (segment_length demo_train) with 3.
  pose proof (Z.mod_pos_bound (tape g (pos g)) 2 ltac:(lia)) as Hb.
  set (a := tape g (pos g) mod 2) in *.
  assert (Ha : a = 0 \/ a = 1) by lia.
  split; [exists a; split; [lia | reflexivity]|].
  split; [reflexivity|].
  destruct Ha as [-> | ->]; cbn; discriminate.
Qed.

(** C4. The training-mode segment does not always have
    [segment_length] samples: for a file of exactly one sample (here with
    a segment of three, where the specification expects the sample followed by
    two zeros) [__getitem__] raises [IndexError], whatever the state of
    the generator, while a file of five samples is cropped to three, and
    padded to eight when the segment is eight samples long. *)
Theorem single_sample_item_raises (g : rng) :
  getitem_list (audio_paths demo_train) 2 = Ok "one.wav"%string /\
  demo_files "one.wav" = Ok ([7], sample_rate demo_train) /\
  getitem 0 demo_files demo_train 2 g = (Raise IndexError, g) /\
  (exists seg, fst (getitem 0 demo_files demo_train 0 g) = Ok (Vector seg) /\
               len seg = segment_length demo_train) /\
  getitem 0 demo_files demo_train_long 0 g =
    (Ok (Vector [1; 2; 3; 4; 5; 0; 0; 0]), g).
Proof.
  split; [reflexivity|]. split; [reflexivity|]. split; [|split].
  - apply (getitem_single_sample Z 0 demo_files demo_train 2 "one.wav" 7 22050);
      reflexivity.
  - destruct (training_segment_length Z 0 demo_files demo_train 0 "five.wav"
                [1; 2; 3; 4; 5] 22050 g eq_refl ltac:(discriminate)
                eq_refl eq_refl eq_refl ltac:(discriminate))
      as (seg & g' & Hrun & Hlen & _).
    exists seg. rewrite Hrun. split; [reflexivity | exact Hlen].
  - reflexivity.
Qed.

Lemma eval_padding_aligned_witness :
  training demo_eval = false /\ 0 < hop_length demo_eval /\
  demo_files "five.wav" = Ok ([1; 2; 3; 4; 5], 22050) /\
  exists t,
    load_audio_to_torch 0 demo_files demo_eval "five.wav" (const_rng 0) =
      (Ok (t, 22050), const_rng 0) /\
    samples t = [1; 2; 3; 4; 5; 0; 0; 0] /\
    len (samples t) = 8 /\ 8 mod 4 = 0.
Proof.
  split; [reflexivity|]. split; [reflexivity|]. split; [reflexivity|].
  destruct (eval_padding_aligned Z 0 demo_files demo_eval "five.wav"
              [1; 2; 3; 4; 5] 22050 (const_rng 0) eq_refl eq_refl eq_refl)
    as (t & Hrun & H).
  cbv zeta in H. destruct H as (Hs & Hlen & Hmod & _).
  exists t. split; [exact Hrun|]. split; [exact Hs|]. split; [exact Hlen | exact Hmod].
Defined.

(** C3 (as stated) fails: a waveform of five samples with a hop of four
    is padded to eight samples, whereas the smallest multiple of four
    that is at least five, plus one hop, is twelve. *)
Lemma eval_padding_not_ceil_plus_hop :
  fst (load_audio_to_torch 0 demo_files demo_eval "five.wav" (const_rng 0)) =
    Ok (Vector [1; 2; 3; 4; 5; 0; 0; 0], 22050) /\
  len [1; 2; 3; 4; 5; 0; 0; 0] = 8 /\
  ceil_multiple 5 4 = 8 /\
  spec_aligned_length (len [1; 2; 3; 4; 5]) (hop_length demo_eval) = 12 /\
  len [1; 2; 3; 4; 5; 0; 0; 0] <>
    spec_aligned_length (len [1; 2; 3; 4; 5]) (hop_length demo_eval).
Proof. repeat split; try reflexivity. discriminate. Qed.

Lemma eval_padding_least_multiple_above_witness :
  (exists t,
     load_audio_to_torch 0 demo_files demo_eval "five.wav" (const_rng 0) =
       (Ok (t, 22050), const_rng 0) /\
     len (samples t) = 8 /\ 5 < len (samples t)) /\
  (exists t,
     load_audio_to_torch 0 demo_files demo_eval "eight.wav" (const_rng 0) =
       (Ok (t, 22050), const_rng 0) /\
     len (samples t) = spec_aligned_length 8 4).
Proof.
  split.
  - destruct (eval_padding_least_multiple_above Z 0 demo_files demo_eval
                "five.wav" [1; 2; 3; 4; 5] 22050 (const_rng 0)
                eq_refl eq_refl eq_refl) as (t & Hrun & H).
    cbv zeta in H. destruct H as (Hmod & Hlt & _ & Hle & _).
    change (len [1; 2; 3; 4; 5]) with 5 in *.
    change (hop_length demo_eval) with 4 in *.
    exists t. split; [exact Hrun|].
    apply Z.mod_divide in Hmod; [|lia]. destruct Hmod as [k Hk].
    split; lia.
  - destruct (eval_padding_least_multiple_above Z 0 demo_files demo_eval
                "eight.wav" [1; 2; 3; 4; 5; 6; 7; 8] 22050 (const_rng 0)
                eq_refl eq_refl eq_refl) as (t & Hrun & H).
    cbv zeta in H. destruct H as (_ & _ & _ & _ & _ & Hspec).
    exists t. split; [exact Hrun | exact (Hspec eq_refl)].
Defined.

Lemma training_segment_length_demo :
  (exists seg g',
     getitem 0 demo_files demo_train 0 (const_rng 1) = (Ok (Vector seg), g') /\
     len seg = 3) /\
  (exists seg g',
     getitem 0 demo_files demo_train_long 0 (const_rng 1) =
       (Ok (Vector seg), g') /\
     len seg = 8 /\ seg = [1; 2; 3; 4; 5; 0; 0; 0]).
Proof.
  split.
  - destruct (training_segment_length Z 0 demo_files demo_train 0 "five.wav"
                [1; 2; 3; 4; 5] 22050 (const_rng 1) eq_refl
                ltac:(discriminate) eq_refl eq_refl eq_refl
                ltac:(discriminate)) as (seg & g' & Hrun & Hlen & _).
    exists seg, g'. split; [exact Hrun | exact Hlen].
  - destruct (training_segment_length Z 0 demo_files demo_train_long 0
                "five.wav" [1; 2; 3; 4; 5] 22050 (const_rng 1) eq_refl
                ltac:(discriminate) eq_refl eq_refl eq_refl
                ltac:(discriminate)) as (seg & g' & Hrun & Hlen & _ & Hpad).
    exists seg, g'. split; [exact Hrun|]. split; [exact Hlen|].
    apply Hpad. discriminate.
Defined.

Lemma sample_rate_mismatch_raises_witness :
  getitem 0 demo_files demo_train 3 (const_rng 0) =
    (Raise AssertionError, const_rng 0) /\
  fst (getitem 0 demo_files demo_train 0 (const_rng 0)) <> Raise AssertionError.
Proof.
  split.
  - destruct (sample_rate_mismatch_raises Z 0 demo_files demo_train 3
                "rate.wav" [1; 2; 3] 16000 (const_rng 0) eq_refl eq_refl)
      as [Hdiff _].
    destruct (Hdiff ltac:(discriminate)) as [_ Hassert].
    apply Hassert. left. reflexivity.
  - destruct (sample_rate_mismatch_raises Z 0 demo_files demo_train 0
                "five.wav" [1; 2; 3; 4; 5] 22050 (const_rng 0) eq_refl eq_refl)
      as [_ Hsame].
    apply Hsame. reflexivity.
Defined.

Lemma demo_eval_items (i : Z) (g0 : rng) :
  0 <= i < dataset_len demo_eval ->
  exists t g0', getitem 0 demo_files demo_eval i g0 = (Ok t, g0').
Proof.
  intros Hi. change (dataset_len demo_eval) with 2 in Hi.
  assert (Hcases : i = 0 \/ i = 1) by lia.
  destruct Hcases as [-> | ->]; do 2 eexists; reflexivity.
Qed.

Lemma sample_test_batch_distinct_witness :
  fst (sample_test_batch 0 demo_files demo_eval 3 (const_rng 0)) =
    Raise ValueError /\
  exists (idx : list Z) (batch : list (tensor Z)) g',
    NoDup idx /\ len idx = 2 /\
    sample_test_batch 0 demo_files demo_eval 2 (const_rng 0) = (Ok batch, g') /\
    len batch = 2.
Proof.
  split.
  - apply (sample_test_batch_distinct Z 0 demo_files demo_eval 3 (const_rng 0)).
    reflexivity.
  - destruct (sample_test_batch_distinct Z 0 demo_files demo_eval 2 (const_rng 0))
      as [_ Hfit].
    destruct Hfit as (idx & g1 & Hnd & Hlen & _ & _ & Hbatch).
    { split; discriminate. }
    destruct (Hbatch demo_eval_items) as (batch & g' & Hrun & Hsize & _).
    exists idx, batch, g'. repeat split; assumption.
Defined.

Lemma demo_Spectrogram_frames (t : tensor R) (S : matrix) :
  spectrogram demo_Spectrogram demo_mel t = Ok S ->
  S <> [] /\
  Forall (fun row => len row = len (samples t) / effective_hop demo_mel + 1) S.
Proof.
  unfold spectrogram, demo_Spectrogram, effective_hop.
  cbn [demo_mel n_fft win_length stft_hop_length default].
  destruct t as [x|v]; [discriminate|]. cbn [samples].
  change (4 <=? 0) with false. change (Z.to_nat (2 / 2 + 1)) with 2%nat.
  cbn [repeat]. intros H. inversion H; subst S. split; [discriminate|].
  assert (Hn : 0 <= len v / 4) by (apply Z.div_pos; [apply len_nonneg | lia]).
  repeat constructor; unfold len at 1;
    rewrite length_map, range_length; lia.
Qed.

Lemma demo_eps_positive : (0 < eps demo_mel)%R.
Proof.
  cbn [eps demo_mel]. apply Rdiv_lt_0_compat; [lra|]. apply pow_lt. lra.
Qed.

Lemma demo_mel_shape :
  Forall (fun row => List.length row = 2%nat) (mel_basis demo_mel).
Proof. repeat constructor. Qed.

Lemma eval_mel_frame_count_witness :
  exists mel full,
    forward demo_Spectrogram demo_mel demo_aligned (Some true) (const_rng 0) =
      (Ok mel, const_rng 0) /\
    forward demo_Spectrogram demo_mel demo_aligned (Some false) (const_rng 0) =
      (Ok full, const_rng 0) /\
    Forall (fun row => len row = 3) full /\
    Forall (fun row => len row = 2) mel /\
    mel = map (@removelast R) full.
Proof.
  edestruct (eval_mel_frame_count demo_Spectrogram demo_wave_files demo_eval
               "five.wav" [1; 2; 3; 4; 5]%R 22050 (const_rng 0) demo_mel
               demo_aligned)
    as (_ & _ & mel & full & Hrun & Hfull & Hf & Hm & _ & Hdrop & _).
  - reflexivity.
  - reflexivity.
  - reflexivity.
  - reflexivity.
  - reflexivity.
  - exact demo_Spectrogram_frames.
  - reflexivity.
  - exact demo_mel_shape.
  - exists mel, full. repeat split; assumption.
Defined.

(** C9 (as stated) fails on a waveform with a [nan] sample: with a
    positive [eps] and a matching filterbank, the frame that starts at
    the [nan] sample has a [nan] magnitude, which the projection,
    [clamp_min] and [log10] pass on; the entry is [nan], not a value that
    is at least [log10 eps]. *)
Lemma mel_entry_nan :
  (0 < eps demo_mel)%R /\
  exists mel,
    Float.forward demo_Spectrogram_float demo_mel demo_aligned_nan None
      (const_rng 0) = (Ok mel, const_rng 0) /\
    nth 1 (nth 0 mel []) (Float.Fin 0) = Float.NaN /\
    ~ Float.fle (Float.Fin (log10 (eps demo_mel)))
        (nth 1 (nth 0 mel []) (Float.Fin 0)).
Proof.
  split; [exact demo_eps_positive|].
  eexists. split; [reflexivity|]. split; [reflexivity|].
  intros H. exact H.
Qed.

Lemma mel_entries_floored_witness :
  exists mel,
    Float.forward demo_Spectrogram_float demo_mel demo_aligned_finite None
      (const_rng 0) = (Ok mel, const_rng 0) /\
    List.length mel = 2%nat /\
    Forall (fun row => List.length row = 2%nat) mel /\
    Forall (Forall (fun v => Float.fle (Float.Fin (log10 (eps demo_mel))) v))
           mel.
Proof.
  destruct (mel_entries_floored demo_Spectrogram_float demo_mel
              demo_aligned_finite None (const_rng 0)
              (repeat [Rabs 1; Rabs 5; Rabs 0] 2)
              demo_eps_positive eq_refl demo_mel_shape)
    as (mel & Hrun & Hform & Hfloor & _).
  exists mel. split; [exact Hrun|].
  split; [rewrite Hform; reflexivity|].
  split; [rewrite Hform; repeat constructor|].
  eapply Forall_impl; [|exact Hfloor]. intros row Hrow.
  eapply Forall_impl; [|exact Hrow]. intros v [Hv _]. exact Hv.
Defined.

Lemma remove_last_defaults_to_true_witness :
  exists mel full,
    forward demo_Spectrogram demo_mel demo_aligned None (const_rng 0) =
      (Ok mel, const_rng 0) /\
    forward demo_Spectrogram demo_mel demo_aligned (Some false) (const_rng 0) =
      (Ok full, const_rng 0) /\
    Forall (fun row => List.length row = 2%nat) mel /\
    Forall (fun row => List.length row = 3%nat) full /\
    mel = map (@removelast R) full /\
    forward demo_Spectrogram demo_mel demo_aligned None (const_rng 0) <>
      forward demo_Spectrogram demo_mel demo_aligned (Some false) (const_rng 0).
Proof.
  destruct (remove_last_defaults_to_true demo_Spectrogram demo_mel
              demo_aligned (const_rng 0)) as [_ Hflag].
  specialize (Hflag (repeat [Rabs 1; Rabs 5; Rabs 0] 2) eq_refl demo_mel_shape).
  cbv zeta in Hflag.
  destruct Hflag as (Hfull & Hdrop & Hcut & _ & Hfr & Hdr & Hne).
  do 2 eexists. split; [exact Hdrop|]. split; [exact Hfull|].
  split; [exact Hdr|]. split; [exact Hfr|]. split; [exact Hcut|].
  apply Hne; discriminate.
Defined.

(** * Further properties of the dataset *)

Lemma getitem_list_out_of_range {X} (l : list X) (i : Z) :
  i < - len l \/ len l <= i -> getitem_list l i = Raise IndexError.
Proof.
  intros H. unfold getitem_list.
  destruct (i <? 0) eqn:E; [apply Z.ltb_lt in E | apply Z.ltb_ge in E].
  - destruct (i + len l <? 0) eqn:E2; [reflexivity|].
    apply Z.ltb_ge in E2. lia.
  - destruct (i <? 0) eqn:E2; [reflexivity|].
    destruct (len l <=? i) eqn:E3; [reflexivity|].
    apply Z.leb_gt in E3. lia.
Qed.

Lemma getitem_list_negative {X} (l : list X) (i : Z) :
  - len l <= i < 0 -> getitem_list l i = getitem_list l (i + len l).
Proof.
  intros H. unfold getitem_list. cbv zeta.
  assert (E : (i <? 0) = true) by (apply Z.ltb_lt; lia).
  assert (E2 : (i + len l <? 0) = false) by (apply Z.ltb_ge; lia).
  rewrite E, !E2. reflexivity.
Qed.

Lemma getitem_list_in_range {X} (l : list X) (i : Z) :
  0 <= i < len l -> exists x, getitem_list l i = Ok x /\ In x l.
Proof.
  intros H. unfold getitem_list.
  destruct (i <? 0) eqn:E; [apply Z.ltb_lt in E; lia|]. rewrite E.
  destruct (len l <=? i) eqn:E2; [apply Z.leb_le in E2; lia|]. cbn [orb].
  destruct (nth_error l (Z.to_nat i)) as [x|] eqn:En.
  - exists x. split; [reflexivity|]. eapply nth_error_In; eassumption.
  - apply nth_error_None in En. unfold len in H. lia.
Qed.

Lemma range_In_iff (n i : Z) : In i (range n) <-> 0 <= i < n.
Proof.
  split; [apply range_In|]. intros H. unfold range.
  apply in_map_iff. exists (Z.to_nat i). split; [lia|]. apply in_seq. lia.
Qed.

(** A list processed by a function that fails somewhere fails with the
    exception of one of its elements. *)
Lemma mapM_raise {X Y} (f : X -> M Y) (l : list X) : forall g e g',
  mapM f l g = (Raise e, g') ->
  exists x ga, In x l /\ fst (f x ga) = Raise e.
Proof.
  induction l as [|x l IH]; intros g e g' H; [discriminate|].
  cbn [mapM] in H. unfold bind at 1 in H.
  destruct (f x g) as [[y|e0] g1] eqn:Ex.
  - unfold bind at 1 in H.
    destruct (mapM f l g1) as [[ys|e1] g2] eqn:El.
    + discriminate.
    + inversion H; subst. destruct (IH g1 e g' El) as (x' & ga & Hin & Hx').
      exists x', ga. split; [right; assumption | assumption].
  - inversion H; subst. exists x, g. split; [left; reflexivity|].
    now rewrite Ex.
Qed.

(** Elements processed without touching the generator leave it untouched
    as a whole. *)
Lemma mapM_pure {X Y} (f : X -> M Y) (P : X -> Y -> Prop) (l : list X) :
  Forall (fun x => exists y, P x y /\ forall g, f x g = (Ok y, g)) l ->
  exists ys, Forall2 P l ys /\ forall g, mapM f l g = (Ok ys, g).
Proof.
  induction 1 as [|x l (y & Hy & Hx) Hl (ys & Hall & Hys)].
  - exists []. split; [constructor | reflexivity].
  - exists (y :: ys). split; [constructor; assumption|].
    intros g. cbn [mapM]. unfold bind. rewrite Hx, Hys. reflexivity.
Qed.

Section DatasetExtras.
Variable sample : Type.
Variable zero : sample.
Variable torchaudio_load : string -> result (list sample * Z).

(** The evaluation-mode item as a value: the same from every generator
    state. *)
Lemma getitem_eval_run ds index path w :
  training ds = false -> 0 < hop_length ds ->
  getitem_list (audio_paths ds) index = Ok path ->
  torchaudio_load path = Ok (w, sample_rate ds) ->
  exists t,
    (forall g, getitem zero torchaudio_load ds index g = (Ok t, g)) /\
    len (samples t) mod hop_length ds = 0.
Proof.
  intros Ht Hh Hp Hl. eexists. split.
  - intros g. unfold getitem, bind at 1, lift at 1. rewrite Hp. unfold bind.
    rewrite (load_audio_eval sample zero torchaudio_load ds path w _ g Ht Hh Hl).
    rewrite Z.eqb_refl, Ht. reflexivity.
  - rewrite samples_squeeze.
    pose proof (aligned_gap (len w) (hop_length ds) Hh) as Hgap.
    rewrite len_app, len_repeat by lia.
    replace (len w + ((len w / hop_length ds + 1) * hop_length ds - len w))
      with ((len w / hop_length ds + 1) * hop_length ds) by lia.
    apply Z.mod_mul. lia.
Qed.

(** X1. An index outside [-N, N) raises [IndexError] and leaves the
    generator alone; a negative index inside that range counts from the
    end of the file list. *)
Theorem getitem_index_bounds ds index g :
  (index < - dataset_len ds \/ dataset_len ds <= index ->
   getitem zero torchaudio_load ds index g = (Raise IndexError, g)) /\
  (- dataset_len ds <= index < 0 ->
   getitem zero torchaudio_load ds index g =
     getitem zero torchaudio_load ds (index + dataset_len ds) g).
Proof.
  unfold dataset_len. split; intros H.
  - unfold getitem, bind, lift.
    now rewrite (getitem_list_out_of_range (audio_paths ds) index H).
  - unfold getitem, bind, lift.
    now rewrite (getitem_list_negative (audio_paths ds) index H).
Qed.

(** X2. In evaluation mode [__getitem__] never crops and never consults
    the generator: it returns the whole waveform followed by the
    alignment zeros, a multiple of [hop_length] long. *)
Theorem getitem_eval_aligned ds index path w sr g :
  training ds = false -> 0 < hop_length ds ->
  getitem_list (audio_paths ds) index = Ok path ->
  torchaudio_load path = Ok (w, sr) ->
  sr = sample_rate ds ->
  exists t,
    getitem zero torchaudio_load ds index g = (Ok t, g) /\
    samples t =
      w ++ repeat zero
             (Z.to_nat ((len w / hop_length ds + 1) * hop_length ds - len w)) /\
    len (samples t) mod hop_length ds = 0 /\
    firstn (List.length w) (samples t) = w.
Proof.
  intros Ht Hh Hp Hl Hsr. eexists. split.
  - unfold getitem, bind at 1, lift at 1. rewrite Hp. unfold bind.
    rewrite (load_audio_eval sample zero torchaudio_load ds path w sr g Ht Hh Hl).
    rewrite Hsr, Z.eqb_refl, Ht. reflexivity.
  - rewrite samples_squeeze.
    pose proof (aligned_gap (len w) (hop_length ds) Hh) as Hgap.
    split; [reflexivity|]. split.
    + rewrite len_app, len_repeat by lia.
      replace (len w + ((len w / hop_length ds + 1) * hop_length ds - len w))
        with ((len w / hop_length ds + 1) * hop_length ds) by lia.
      apply Z.mod_mul. lia.
    + rewrite firstn_app, Nat.sub_diag, firstn_all. cbn. apply app_nil_r.
Qed.

(** X3. In evaluation mode a [hop_length] of zero makes every loadable
    item fail with [ZeroDivisionError], before its sample rate is looked
    at. *)
Theorem getitem_eval_zero_hop ds index path w sr g :
  training ds = false -> hop_length ds = 0 ->
  getitem_list (audio_paths ds) index = Ok path ->
  torchaudio_load path = Ok (w, sr) ->
  getitem zero torchaudio_load ds index g = (Raise ZeroDivisionError, g).
Proof.
  intros Ht Hh Hp Hl. unfold getitem, bind at 1, lift at 1. rewrite Hp.
  unfold bind at 1. unfold load_audio_to_torch, bind, lift.
  rewrite Hl, Ht. cbn [negb]. unfold floordiv. rewrite Hh. reflexivity.
Qed.

(** X4. Each mode ignores the other mode's parameter: training-mode
    items do not depend on [hop_length] (no alignment padding), and
    evaluation-mode items do not depend on [segment_length]. *)
Theorem getitem_unused_parameter ds1 ds2 index g :
  training ds1 = training ds2 ->
  sample_rate ds1 = sample_rate ds2 ->
  audio_paths ds1 = audio_paths ds2 ->
  (if training ds1 then segment_length ds1 = segment_length ds2
   else hop_length ds1 = hop_length ds2) ->
  getitem zero torchaudio_load ds1 index g =
    getitem zero torchaudio_load ds2 index g.
Proof.
  destruct ds1 as [h1 t1 s1 r1 p1], ds2 as [h2 t2 s2 r2 p2].
  cbn. intros <- <- <- H. unfold getitem, load_audio_to_torch.
  cbn [training hop_length segment_length sample_rate audio_paths].
  destruct t1; cbn [negb]; subst; reflexivity.
Qed.
Lemma slice_without_last (l : list sample) (a b : Z) :
  0 <= a -> a <= b -> b <= len l - 1 ->
  slice l a b = slice (removelast l) a b.
Proof.
  intros Ha Hab Hb.
  assert (Hlen : len (removelast l) = len l - 1).
  { unfold len in *. rewrite removelast_length. lia. }
  rewrite !slice_window by lia.
  rewrite removelast_firstn_len, skipn_firstn_comm, firstn_firstn.
  f_equal. unfold len in *. lia.
Qed.

(** X5. In training mode the crop of a longer waveform starts at an
    offset of [0 <= a < length - segment_length]; every such offset is
    the outcome of some draw; and the last sample of the waveform belongs
    to no crop. *)
Theorem training_crop_window ds index path w sr :
  training ds = true -> 0 <= segment_length ds ->
  getitem_list (audio_paths ds) index = Ok path ->
  torchaudio_load path = Ok (w, sr) ->
  sr = sample_rate ds ->
  List.length w <> 1%nat ->
  segment_length ds < len w ->
  (forall g, exists a,
     0 <= a < len w - segment_length ds /\
     fst (getitem zero torchaudio_load ds index g) =
       Ok (Vector (slice w a (a + segment_length ds))) /\
     slice w a (a + segment_length ds) =
       slice (removelast w) a (a + segment_length ds)) /\
  (forall a, 0 <= a < len w - segment_length ds ->
     fst (getitem zero torchaudio_load ds index (const_rng a)) =
       Ok (Vector (slice w a (a + segment_length ds)))).
Proof.
  intros Ht Hseg Hp Hl Hsr Hw Hlong. split.
  - intros g.
    pose proof (getitem_crop sample zero torchaudio_load ds index path w sr g
                  Ht Hp Hl Hsr Hw Hlong) as Hrun.
    cbv zeta in Hrun. destruct Hrun as [g' Hrun].
    pose proof (Z.mod_pos_bound (tape g (pos g)) (len w - segment_length ds)
                  ltac:(lia)) as Ha.
    eexists. split; [exact Ha|]. split; [rewrite Hrun; reflexivity|].
    apply slice_without_last; lia.
  - intros a Ha.
    apply (crop_offset_reachable sample zero torchaudio_load ds index path w sr a);
      assumption.
Qed.

(** X6. In training mode an item that loads at the configured rate is
    refused exactly when its waveform has a single sample; otherwise the
    segment has exactly [segment_length] samples, and a waveform no
    longer than the segment comes back followed by zeros, without a draw
    of the generator (unchanged when it is exactly as long). *)
Theorem training_item_shape ds index path w sr g :
  training ds = true -> 0 <= segment_length ds ->
  getitem_list (audio_paths ds) index = Ok path ->
  torchaudio_load path = Ok (w, sr) ->
  sr = sample_rate ds ->
  (fst (getitem zero torchaudio_load ds index g) = Raise IndexError <->
   List.length w = 1%nat) /\
  (List.length w <> 1%nat ->
   exists seg,
     fst (getitem zero torchaudio_load ds index g) = Ok (Vector seg) /\
     len seg = segment_length ds /\
     (len w <= segment_length ds ->
      seg = w ++ repeat zero (Z.to_nat (segment_length ds - len w)) /\
      snd (getitem zero torchaudio_load ds index g) = g) /\
     (len w = segment_length ds -> seg = w)).
Proof.
  intros Ht Hseg Hp Hl Hsr.
  assert (Hshape : List.length w <> 1%nat ->
    exists seg,
      fst (getitem zero torchaudio_load ds index g) = Ok (Vector seg) /\
      len seg = segment_length ds /\
      (len w <= segment_length ds ->
       seg = w ++ repeat zero (Z.to_nat (segment_length ds - len w)) /\
       snd (getitem zero torchaudio_load ds index g) = g) /\
      (len w = segment_length ds -> seg = w)).
  { intros Hw.
    destruct (Z.lt_ge_cases (segment_length ds) (len w)) as [Hlong|Hshort].
    - pose proof (getitem_crop sample zero torchaudio_load ds index path w sr g
                    Ht Hp Hl Hsr Hw Hlong) as Hrun.
      cbv zeta in Hrun. destruct Hrun as [g' Hrun]. rewrite Hrun.
      cbn [fst snd].
      pose proof (Z.mod_pos_bound (tape g (pos g)) (len w - segment_length ds)
                    ltac:(lia)) as Ha.
      eexists. split; [reflexivity|]. split; [|split; intros; lia].
      rewrite len_slice_window by lia. lia.
    - rewrite (getitem_pad sample zero torchaudio_load ds index path w sr g
                 Ht Hp Hl Hsr Hw Hshort). cbn [fst snd].
      eexists. split; [reflexivity|]. split; [|split].
      + rewrite len_app, len_repeat by lia. lia.
      + intros _. split; reflexivity.
      + intros Heq. rewrite Heq, Z.sub_diag. cbn. apply app_nil_r. }
  split; [|exact Hshape]. split.
  - intros Hraise. destruct (Nat.eq_dec (List.length w) 1) as [|Hw]; [assumption|].
    destruct (Hshape Hw) as (seg & Hok & _). congruence.
  - intros Hone. destruct w as [|x [|y w]]; try discriminate.
    now rewrite (getitem_single_sample sample zero torchaudio_load ds index
                   path x sr g Ht Hp Hl Hsr).
Qed.

(** X7. A negative batch size raises [ValueError]; a batch of size zero
    is the empty list, on an empty dataset as on any other, whatever its
    items are. *)
Theorem sample_test_batch_size_edges ds size g :
  (size < 0 ->
   fst (sample_test_batch zero torchaudio_load ds size g) = Raise ValueError) /\
  fst (sample_test_batch zero torchaudio_load ds 0 g) = Ok [].
Proof.
  split.
  - intros Hneg. unfold sample_test_batch, choice_no_replace, bind.
    apply Z.ltb_lt in Hneg. rewrite Hneg. reflexivity.
  - pose proof (len_nonneg _ (audio_paths ds)) as Hn.
    destruct (choice_no_replace_ok (dataset_len ds) 0 g)
      as (idx & g1 & Hrun & Hlen & _); [unfold dataset_len; lia|].
    unfold sample_test_batch, bind. rewrite Hrun.
    destruct idx; [reflexivity | discriminate].
Qed.

(** X8. A batch as large as the dataset visits every index exactly once:
    the indices it processes are a permutation of [range(len(self))]. *)
Theorem sample_test_batch_full_permutation ds size g :
  size = dataset_len ds ->
  exists idx g1,
    Permutation idx (range (dataset_len ds)) /\
    sample_test_batch zero torchaudio_load ds size g =
      mapM (getitem zero torchaudio_load ds) idx g1.
Proof.
  intros ->.
  pose proof (len_nonneg _ (audio_paths ds)) as Hn. fold (dataset_len ds) in Hn.
  destruct (choice_no_replace_ok (dataset_len ds) (dataset_len ds) g
              ltac:(lia)) as (idx & g1 & Hrun & Hlen & Hnd & Hrange).
  exists idx, g1. split.
  - apply NoDup_Permutation_bis; [assumption| |].
    + rewrite range_length. unfold len in Hlen. lia.
    + intros i Hi. apply range_In_iff.
      rewrite Forall_forall in Hrange. auto.
  - unfold sample_test_batch, bind. rewrite Hrun. reflexivity.
Qed.

(** X9. When the requested size fits the dataset, the sampling itself
    never fails: an exception of [sample_test_batch] is the exception of
    [__getitem__] on some index of the dataset. *)
Theorem sample_test_batch_error_provenance ds size g e g' :
  0 <= size <= dataset_len ds ->
  sample_test_batch zero torchaudio_load ds size g = (Raise e, g') ->
  exists i ga,
    0 <= i < dataset_len ds /\
    fst (getitem zero torchaudio_load ds i ga) = Raise e.
Proof.
  intros Hsize. unfold sample_test_batch, bind.
  destruct (choice_no_replace_ok (dataset_len ds) size g Hsize)
    as (idx & g1 & Hrun & _ & _ & Hrange).
  rewrite Hrun. intros Hfail.
  destruct (mapM_raise _ idx g1 e g' Hfail) as (i & ga & Hin & Hi).
  exists i, ga. split; [|exact Hi].
  rewrite Forall_forall in Hrange. auto.
Qed.

(** X10. On an evaluation dataset whose files all load at the configured
    rate, a test batch of a size that fits is returned, and its elements
    are the evaluation-mode items of pairwise distinct indices, in order:
    aligned waveforms, each a multiple of [hop_length] long, that do not
    depend on the generator beyond the choice of the indices. *)
Theorem eval_batch_aligned ds size g :
  training ds = false -> 0 < hop_length ds ->
  (forall path, In path (audio_paths ds) ->
     exists w, torchaudio_load path = Ok (w, sample_rate ds)) ->
  0 <= size <= dataset_len ds ->
  exists idx batch g',
    sample_test_batch zero torchaudio_load ds size g = (Ok batch, g') /\
    NoDup idx /\ len batch = size /\
    Forall2 (fun i t =>
               0 <= i < dataset_len ds /\
               (forall ga, getitem zero torchaudio_load ds i ga = (Ok t, ga)) /\
               len (samples t) mod hop_length ds = 0) idx batch.
Proof.
  intros Ht Hh Hfiles Hsize.
  destruct (choice_no_replace_ok (dataset_len ds) size g Hsize)
    as (idx & g1 & Hrun & Hlen & Hnd & Hrange).
  destruct (mapM_pure (getitem zero torchaudio_load ds)
              (fun i t =>
                 0 <= i < dataset_len ds /\
                 (forall ga, getitem zero torchaudio_load ds i ga = (Ok t, ga)) /\
                 len (samples t) mod hop_length ds = 0) idx)
    as (batch & Hall & Hbatch).
  { eapply Forall_impl; [|exact Hrange]. intros i Hi. cbn in Hi.
    destruct (getitem_list_in_range (audio_paths ds) i Hi) as (path & Hp & Hin).
    destruct (Hfiles path Hin) as (w & Hl).
    destruct (getitem_eval_run ds i path w Ht Hh Hp Hl) as (t & Hrun_t & Hmod).
    exists t. split; [|exact Hrun_t]. split; [exact Hi|]. split; assumption. }
  exists idx, batch, g1. split; [|split; [|split]].
  - unfold sample_test_batch, bind. rewrite Hrun, Hbatch. reflexivity.
  - exact Hnd.
  - apply Forall2_length in Hall. unfold len in *. lia.
  - exact Hall.
Qed.
End DatasetExtras.

(** * Further properties of the mel extractor *)

Lemma matmul_shape_mismatch (a b : matrix) :
  Exists (fun row => List.length row <> List.length b) a ->
  matmul a b = Raise RuntimeError.
Proof.
  intros H. unfold matmul.
  destruct (forallb _ a) eqn:E; [|reflexivity].
  rewrite forallb_forall in E. apply Exists_exists in H.
  destruct H as (row & Hin & Hne). apply E, Nat.eqb_eq in Hin. contradiction.
Qed.

Section MelExtras.
Variable Spectrogram : Z -> option Z -> option Z -> tensor R -> result matrix.

(** X11. [forward] does not recover from its two failures: an exception
    of the spectral transform is passed on as it is, and a filterbank row
    whose length differs from the number of bins of the spectrogram makes
    the projection raise [RuntimeError]; the generator is left alone in
    both cases. *)
Theorem forward_failures self audio remove_last g :
  (forall e, spectrogram Spectrogram self audio = Raise e ->
     forward Spectrogram self audio remove_last g = (Raise e, g)) /\
  (forall S, spectrogram Spectrogram self audio = Ok S ->
     Exists (fun row => List.length row <> List.length S) (mel_basis self) ->
     forward Spectrogram self audio remove_last g = (Raise RuntimeError, g)).
Proof.
  split.
  - intros e He. unfold forward, bind, lift. rewrite He. reflexivity.
  - intros S HS Hbad. unfold forward, bind, lift. rewrite HS.
    rewrite matmul_shape_mismatch; [reflexivity|].
    unfold tensor_abs. rewrite length_map. exact Hbad.
Qed.

(** X12. When the filterbank matches the bins of the spectrogram,
    [forward] returns one row per mel filter; every row has as many
    entries as the spectrogram has frames, one fewer with the last-frame
    drop (the default), and none when there was at most one frame. *)
Theorem forward_output_shape self audio remove_last g S :
  spectrogram Spectrogram self audio = Ok S ->
  Forall (fun row => List.length row = List.length S) (mel_basis self) ->
  exists mel,
    forward Spectrogram self audio remove_last g = (Ok mel, g) /\
    List.length mel = List.length (mel_basis self) /\
    Forall (fun row =>
              List.length row =
                if default remove_last true then Nat.pred (ncols S)
                else ncols S) mel.
Proof.
  intros HS Hshape.
  destruct (forward_run Spectrogram self audio remove_last g S HS Hshape)
    as (prod & _ & Hlen & Hcols & _ & Hrun).
  eexists. split; [exact Hrun|].
  pose proof (log10_clamp_row_lengths prod (eps self) (ncols S) Hcols) as Hfull.
  assert (Hrows : List.length (tensor_log10 (clamp_min prod (eps self))) =
                  List.length (mel_basis self)).
  { unfold tensor_log10, clamp_min. now rewrite !length_map. }
  destruct (default remove_last true).
  - split; [now rewrite length_map|].
    apply Forall_map. eapply Forall_impl; [|exact Hfull].
    intros row Hrow. cbn in Hrow. now rewrite removelast_length, Hrow.
  - split; assumption.
Qed.
End MelExtras.

(** * The sampler and the extractor together *)

Section PipelineExtras.
Variable Spectrogram : Z -> option Z -> option Z -> tensor R -> result matrix.
Variable torchaudio_load : string -> result (list R * Z).

(** X13. A training segment gives [segment_length // hop] mel frames:
    with a transform that emits one frame per hop plus one, [forward]
    called with its default flag on the item of a training dataset
    returns rows of exactly [segment_length // hop] entries, whatever the
    length of the file the segment was cut or padded from. *)
Theorem training_mel_frame_count ds index path w sr g self :
  training ds = true -> 0 <= segment_length ds ->
  getitem_list (audio_paths ds) index = Ok path ->
  torchaudio_load path = Ok (w, sr) ->
  sr = sample_rate ds ->
  List.length w <> 1%nat ->
  0 < effective_hop self ->
  (forall t' S', spectrogram Spectrogram self t' = Ok S' ->
     S' <> [] /\
     Forall (fun row => len row = len (samples t') / effective_hop self + 1) S') ->
  exists t,
    fst (getitem 0%R torchaudio_load ds index g) = Ok t /\
    len (samples t) = segment_length ds /\
    forall S ga,
      spectrogram Spectrogram self t = Ok S ->
      Forall (fun row => List.length row = List.length S) (mel_basis self) ->
      exists mel,
        forward Spectrogram self t None ga = (Ok mel, ga) /\
        Forall (fun row => len row = segment_length ds / effective_hop self) mel.
Proof.
  intros Ht Hseg Hp Hl Hsr Hw Hhop Hframes.
  destruct (training_segment_length R 0%R torchaudio_load ds index path w sr g
              Ht Hseg Hp Hl Hsr Hw) as (seg & g' & Hrun & Hlen & _).
  exists (Vector seg). rewrite Hrun. split; [reflexivity|].
  split; [exact Hlen|]. intros S ga HS Hshape.
  destruct (Hframes _ _ HS) as [Hne Hrows]. cbn [samples] in Hrows.
  rewrite Hlen in Hrows.
  assert (Hnn : 0 <= segment_length ds / effective_hop self)
    by (apply Z.div_pos; assumption).
  assert (Hcols : Z.of_nat (ncols S) =
                  segment_length ds / effective_hop self + 1).
  { destruct S as [|row S]; [congruence|]. inversion Hrows; subst. assumption. }
  destruct (forward_run Spectrogram self (Vector seg) None ga S HS Hshape)
    as (prod & _ & _ & Hpc & _ & Hfwd).
  eexists. split; [exact Hfwd|]. cbn [default].
  pose proof (log10_clamp_row_lengths prod (eps self) (ncols S) Hpc) as Hfull.
  apply Forall_map. eapply Forall_impl; [|exact Hfull].
  intros row Hrow. cbn in Hrow. unfold len. rewrite removelast_length. lia.
Qed.
End PipelineExtras.

(** ** The further properties on the example inputs *)

Lemma getitem_index_bounds_witness :
  getitem 0 demo_files demo_train 4 (const_rng 0) =
    (Raise IndexError, const_rng 0) /\
  getitem 0 demo_files demo_train (-1) (const_rng 0) =
    getitem 0 demo_files demo_train 3 (const_rng 0).
Proof.
  destruct (getitem_index_bounds Z 0 demo_files demo_train 4 (const_rng 0))
    as [Hout _].
  destruct (getitem_index_bounds Z 0 demo_files demo_train (-1) (const_rng 0))
    as [_ Hneg].
  split.
  - apply Hout. right. vm_compute. discriminate.
  - apply Hneg. split; [vm_compute; discriminate | reflexivity].
Defined.

Lemma getitem_eval_aligned_witness :
  exists t,
    getitem 0 demo_files demo_eval 0 (const_rng 1) = (Ok t, const_rng 1) /\
    samples t = [1; 2; 3; 4; 5; 0; 0; 0].
Proof.
  destruct (getitem_eval_aligned Z 0 demo_files demo_eval 0 "five.wav"
              [1; 2; 3; 4; 5] 22050 (const_rng 1) eq_refl eq_refl eq_refl
              eq_refl eq_refl) as (t & Hrun & Hs & _).
  exists t. split; [exact Hrun | exact Hs].
Defined.

Lemma getitem_eval_zero_hop_witness :
  getitem 0 demo_files demo_eval_zero_hop 0 (const_rng 0) =
    (Raise ZeroDivisionError, const_rng 0).
Proof.
  apply (getitem_eval_zero_hop Z 0 demo_files demo_eval_zero_hop 0 "rate.wav"
           [1; 2; 3] 16000); reflexivity.
Defined.

Lemma getitem_unused_parameter_witness :
  getitem 0 demo_files demo_train 0 (const_rng 1) =
    getitem 0 demo_files
      (mkAudioDataset 0 true 3 22050 (audio_paths demo_train)) 0 (const_rng 1) /\
  getitem 0 demo_files demo_eval 0 (const_rng 1) =
    getitem 0 demo_files
      (mkAudioDataset 4 false 100 22050 (audio_paths demo_eval)) 0 (const_rng 1).
Proof.
  split; apply getitem_unused_parameter; reflexivity.
Defined.

Lemma training_crop_window_witness :
  (exists a, 0 <= a < 2 /\
     fst (getitem 0 demo_files demo_train 0 (const_rng 7)) =
       Ok (Vector (slice [1; 2; 3; 4; 5] a (a + 3)))) /\
  fst (getitem 0 demo_files demo_train 0 (const_rng 1)) = Ok (Vector [2; 3; 4]).
Proof.
  destruct (training_crop_window Z 0 demo_files demo_train 0 "five.wav"
              [1; 2; 3; 4; 5] 22050 eq_refl ltac:(discriminate) eq_refl eq_refl
              eq_refl ltac:(discriminate) eq_refl) as [Hall Hreach].
  split.
  - destruct (Hall (const_rng 7)) as (a & Ha & Hrun & _).
    exists a. split; [exact Ha|]. rewrite Hrun. reflexivity.
  - apply (Hreach 1). split; [discriminate | reflexivity].
Defined.

Lemma training_item_shape_witness :
  fst (getitem 0 demo_files demo_train 2 (const_rng 0)) = Raise IndexError /\
  exists seg,
    fst (getitem 0 demo_files demo_train_long 0 (const_rng 0)) =
      Ok (Vector seg) /\
    len seg = 8.
Proof.
  split.
  - apply (training_item_shape Z 0 demo_files demo_train 2 "one.wav" [7] 22050
             (const_rng 0) eq_refl ltac:(discriminate) eq_refl eq_refl eq_refl).
    reflexivity.
  - destruct (training_item_shape Z 0 demo_files demo_train_long 0 "five.wav"
                [1; 2; 3; 4; 5] 22050 (const_rng 0) eq_refl ltac:(discriminate)
                eq_refl eq_refl eq_refl) as [_ Hshape].
    destruct (Hshape ltac:(discriminate)) as (seg & Hrun & Hlen & _).
    exists seg. split; [exact Hrun | exact Hlen].
Defined.

Lemma sample_test_batch_size_edges_witness :
  fst (sample_test_batch 0 demo_files demo_eval (-1) (const_rng 0)) =
    Raise ValueError /\
  fst (sample_test_batch 0 demo_files demo_eval 0 (const_rng 0)) = Ok [].
Proof.
  destruct (sample_test_batch_size_edges Z 0 demo_files demo_eval (-1)
              (const_rng 0)) as [Hneg Hzero].
  split; [apply Hneg; reflexivity | exact Hzero].
Defined.

Lemma sample_test_batch_full_permutation_witness :
  exists (idx : list Z) g1,
    Permutation idx [0; 1] /\
    sample_test_batch 0 demo_files demo_eval 2 (const_rng 0) =
      mapM (getitem 0 demo_files demo_eval) idx g1.
Proof.
  exact (sample_test_batch_full_permutation Z 0 demo_files demo_eval 2
           (const_rng 0) eq_refl).
Defined.

Lemma sample_test_batch_error_provenance_witness :
  exists i ga,
    0 <= i < 4 /\ fst (getitem 0 demo_files demo_train i ga) = Raise IndexError.
Proof.
  eapply (sample_test_batch_error_provenance Z 0 demo_files demo_train 4
            (const_rng 0)).
  - split; discriminate.
  - reflexivity.
Defined.

Lemma demo_eval_files (path : string) :
  In path (audio_paths demo_eval) ->
  exists w, demo_files path = Ok (w, sample_rate demo_eval).
Proof.
  intros [<- | [<- | []]]; eexists; reflexivity.
Qed.

Lemma eval_batch_aligned_witness :
  exists (idx : list Z) (batch : list (tensor Z)) g',
    sample_test_batch 0 demo_files demo_eval 2 (const_rng 0) =
      (Ok batch, g') /\
    NoDup idx /\ len batch = 2 /\
    Forall (fun t => len (samples t) mod 4 = 0) batch.
Proof.
  destruct (eval_batch_aligned Z 0 demo_files demo_eval 2 (const_rng 0)
              eq_refl eq_refl demo_eval_files)
    as (idx & batch & g' & Hrun & Hnd & Hlen & Hall).
  { split; discriminate. }
  exists idx, batch, g'. split; [exact Hrun|]. split; [exact Hnd|].
  split; [exact Hlen|].
  clear Hrun Hlen Hnd. induction Hall as [|i t idx batch (_ & _ & Hmod) _ IH];
    constructor; assumption.
Defined.

Lemma forward_failures_witness :
  forward demo_Spectrogram demo_mel (Scalar 1%R) None (const_rng 0) =
    (Raise RuntimeError, const_rng 0) /\
  forward demo_Spectrogram demo_mel_three_bins demo_aligned None (const_rng 0) =
    (Raise RuntimeError, const_rng 0).
Proof.
  split.
  - apply (forward_failures demo_Spectrogram demo_mel (Scalar 1%R) None
             (const_rng 0)). reflexivity.
  - eapply (forward_failures demo_Spectrogram demo_mel_three_bins demo_aligned
              None (const_rng 0)).
    + reflexivity.
    + apply Exists_cons_hd. discriminate.
Defined.

Lemma forward_output_shape_witness :
  exists mel,
    forward demo_Spectrogram demo_mel demo_aligned None (const_rng 0) =
      (Ok mel, const_rng 0) /\
    List.length mel = 2%nat /\
    Forall (fun row => List.length row = 2%nat) mel.
Proof.
  edestruct (forward_output_shape demo_Spectrogram demo_mel demo_aligned None
               (const_rng 0)) as (mel & Hrun & Hlen & Hrows).
  - reflexivity.
  - exact demo_mel_shape.
  - exists mel. split; [exact Hrun|]. split; [exact Hlen | exact Hrows].
Defined.

Lemma training_mel_frame_count_witness :
  exists t,
    fst (getitem 0%R demo_wave_files demo_train_long 0 (const_rng 0)) = Ok t /\
    len (samples t) = 8 /\
    exists mel,
      forward demo_Spectrogram demo_mel t None (const_rng 0) =
        (Ok mel, const_rng 0) /\
      Forall (fun row => len row = 2) mel.
Proof.
  destruct (training_mel_frame_count demo_Spectrogram demo_wave_files
              demo_train_long 0 "five.wav" [1; 2; 3; 4; 5]%R 22050 (const_rng 0)
              demo_mel eq_refl ltac:(discriminate) eq_refl eq_refl eq_refl
              ltac:(discriminate) eq_refl demo_Spectrogram_frames)
    as (t & Hrun & Hlen & Hmel).
  assert (Ht : Ok t = Ok (Vector [1; 2; 3; 4; 5; 0; 0; 0]%R))
    by (rewrite <- Hrun; reflexivity).
  assert (Ht' : t = Vector [1; 2; 3; 4; 5; 0; 0; 0]%R) by congruence.
  exists t. split; [exact Hrun|]. split; [exact Hlen|].
  rewrite Ht' in Hmel |- *.
  edestruct Hmel with (ga := const_rng 0) as (mel & Hfwd & Hrows).
  - reflexivity.
  - exact demo_mel_shape.
  - exists mel. split; [exact Hfwd | exact Hrows].
Defined.

